(** * pickaxe: a sequential writer and a paged, buffered reader

    A shallow embedding of [include/pickaxe.hpp].  The C++ classes
    [Serializer] and [Deserializer] become records whose fields carry the
    names of the C++ members; every member function becomes a function from
    the object (and its arguments) to an [outcome], which is either a normal
    return, a thrown [Exception], or undefined behaviour.  The C stdio
    [FILE] the classes sit on is the only external collaborator; it is
    modelled by an in-memory stream with fault switches and call counters. *)

From Stdlib Require Import ZArith List Lia Bool String.
From Stdlib Require Import Init.Byte.
Import ListNotations.
Local Open Scope Z_scope.

Set Implicit Arguments.

(** ** 64-bit unsigned arithmetic *)

Module U64.

Definition modulus : Z := 2 ^ 64.

(** [uint64_t] values are integers in [0, 2^64); every arithmetic
    operation of the source is reduced modulo [2^64]. *)
Definition wrap (z : Z) : Z := z mod modulus.

Definition add (a b : Z) : Z := wrap (a + b).
Definition sub (a b : Z) : Z := wrap (a - b).

Definition fits (z : Z) : Prop := 0 <= z < modulus.

End U64.

(** ** Exceptions and outcomes *)

(** The exception classes of the header.  The message string each one builds
    is determined by its arguments, which is all that is kept here. *)
Inductive Exception : Type :=
| CloseException (filename : string)
| WriteException (filename : string) (message : option string)
| ReadException (filename : string) (message : option string)
| InvalidPageSizeException (page_size : Z).

(** What a call can do: return, throw, run into undefined behaviour
    (a [memcpy] that leaves the read buffer, [% 0], a call through a null
    [FILE *]), or exhaust the fuel that bounds a [while] loop. *)
Inductive outcome (A : Type) : Type :=
| Ok (a : A)
| Throw (e : Exception)
| Undefined
| OutOfFuel.

Arguments Ok {A} a.
Arguments Throw {A} e.
Arguments Undefined {A}.
Arguments OutOfFuel {A}.

Definition bind {A B : Type} (m : outcome A) (k : A -> outcome B) : outcome B :=
  match m with
  | Ok a => k a
  | Throw e => Throw e
  | Undefined => Undefined
  | OutOfFuel => OutOfFuel
  end.

Declare Scope outcome_scope.
Delimit Scope outcome_scope with outcome.
Notation "x <- m ;; k" := (bind m (fun x => k))
  (at level 61, m at next level, right associativity) : outcome_scope.
Notation "' p <- m ;; k" := (bind m (fun p => k))
  (at level 61, p pattern, m at next level, right associativity)
  : outcome_scope.
Local Open Scope outcome_scope.

Definition succeeded {A : Type} (m : outcome A) : Prop :=
  exists a, m = Ok a.

(** ** The stdio stream *)

(** The stream is kept apart from the memory of its client: [fread] hands
    the bytes it obtained to the caller, and no other stream operation
    writes to a client array.  [Deserializer] passes its [_read_buffer] to
    [setvbuf] and then reads into that same array, so the array is also the
    stream's own buffer.  What a C library keeps in a buffer it was given,
    and when it writes to it (read-ahead on a later [fseek], copies of
    pending read-ahead on the [fread] after it), is the library's business
    and is not represented here.  It does not come into play for a stream
    that is sought once, before it is given the buffer, and is then read in
    whole pages: each [fread] then transfers the page straight into the
    destination.  The properties that say which bytes of the file a [read]
    returns are stated for readers used in that way ([sequential] below);
    how many bytes an [fread] obtains, the indicators and the call counters
    are the same either way. *)

Module Stdio.

(** Fault switches of the stream: which requests the device refuses. *)
Record Faults : Type := mkFaults {
  seek_max : Z;             (* [fseek] fails for offsets above this *)
  capacity : Z;             (* [fwrite] accepts no byte at or past this *)
  bad_byte : option Z;      (* [fread] stops with an error at this position *)
  flush_fails : bool;
  close_fails : bool
}.

Record FILE : Type := mkFILE {
  bytes : list byte;        (* the contents of the resource *)
  pos : Z;                  (* file position indicator *)
  eof : bool;               (* end-of-file indicator *)
  error : bool;             (* error indicator *)
  vbuf : option Z;          (* size given to the last [setvbuf] *)
  nread : nat;              (* number of [fread] calls so far *)
  nseek : nat;              (* number of [fseek] calls so far *)
  nwrite : nat;             (* number of [fwrite] calls so far *)
  faults : Faults
}.

Definition no_faults : Faults :=
  mkFaults (2 ^ 63 - 1) (2 ^ 63 - 1) None false false.

(** [fopen(filename, "rb")] on a resource holding [content]. *)
Definition fopen (content : list byte) (fl : Faults) : FILE :=
  mkFILE content 0 false false None 0 0 0 fl.

Definition len {A : Type} (l : list A) : Z := Z.of_nat (List.length l).

(** The bytes [fread] would deliver from the current position when asked
    for [size] of them, before faults are applied. *)
Definition available (f : FILE) (size : Z) : list byte :=
  firstn (Z.to_nat size) (skipn (Z.to_nat (pos f)) (bytes f)).

(** [fread(buf, 1, size, f)]: the bytes obtained and the stream afterwards.
    Fewer than [size] bytes are obtained at the end of the data (which
    raises the end-of-file indicator) or at a bad byte (which raises the
    error indicator). *)
Definition fread (f : FILE) (size : Z) : list byte * FILE :=
  let want := available f size in
  let hit :=
    match bad_byte (faults f) with
    | Some q => (pos f <=? q) && (q <? pos f + len want)
    | None => false
    end in
  let got :=
    match bad_byte (faults f) with
    | Some q => if hit then firstn (Z.to_nat (q - pos f)) want else want
    | None => want
    end in
  (got,
   mkFILE (bytes f) (pos f + len got)
          (eof f || (negb hit && (len want <? size)))
          (error f || hit)
          (vbuf f) (S (nread f)) (nseek f) (nwrite f) (faults f)).

(** [fseek(f, offset, SEEK_SET)]: zero on success.  A successful seek
    clears the end-of-file indicator.  Only the position moves: a read-ahead
    into the stream's buffer is not represented. *)
Definition fseek (f : FILE) (offset : Z) : Z * FILE :=
  if offset <=? seek_max (faults f) then
    (0, mkFILE (bytes f) offset false (error f) (vbuf f)
               (nread f) (S (nseek f)) (nwrite f) (faults f))
  else
    (-1, mkFILE (bytes f) (pos f) (eof f) (error f) (vbuf f)
                (nread f) (S (nseek f)) (nwrite f) (faults f)).

(** Overwrite [old] from index [at_] with [new], zero-filling a gap when
    [at_] lies past the end of [old]. *)
Definition splice (old : list byte) (at_ : nat) (new : list byte) : list byte :=
  firstn at_ old ++ repeat x00 (at_ - List.length old) ++ new
    ++ skipn (at_ + List.length new) old.

(** [fwrite(data, 1, size, f)]: the number of bytes accepted and the
    stream afterwards.  Bytes at or past [capacity] are refused. *)
Definition fwrite (f : FILE) (data : list byte) : Z * FILE :=
  let room := Z.max 0 (capacity (faults f) - pos f) in
  let accepted := firstn (Z.to_nat (Z.min room (len data))) data in
  (len accepted,
   mkFILE (if (List.length accepted =? 0)%nat then bytes f
           else splice (bytes f) (Z.to_nat (pos f)) accepted)
          (pos f + len accepted) (eof f)
          (error f || (len accepted <? len data))
          (vbuf f) (nread f) (nseek f) (S (nwrite f)) (faults f)).

(** [setvbuf(f, buf, _IOFBF, size)]: the size is recorded; the array [buf]
    is not (see the head of this section). *)
Definition setvbuf (f : FILE) (size : Z) : FILE :=
  mkFILE (bytes f) (pos f) (eof f) (error f) (Some size)
         (nread f) (nseek f) (nwrite f) (faults f).

Definition feof (f : FILE) : bool := eof f.
Definition ferror (f : FILE) : bool := error f.

(** [fflush] and [fclose] return zero on success. *)
Definition fflush (f : FILE) : Z := if flush_fails (faults f) then -1 else 0.
Definition fclose (f : FILE) : Z := if close_fails (faults f) then -1 else 0.

End Stdio.

Import Stdio.

(** ** Fixed-layout values *)

(** [std::is_pod_v<T>]: a type whose values are their [sizeof] bytes.  The
    byte representation is stable when reinterpreting the bytes of a value
    gives the value back. *)
Class Pod (T : Type) : Type := mkPod {
  sizeof : Z;
  alignof : Z;
  to_bytes : T -> list byte;
  of_bytes : list byte -> T;
  to_bytes_len : forall v : T, len (to_bytes v) = sizeof;
  of_to_bytes : forall v : T, of_bytes (to_bytes v) = v
}.

(** ** DestructorExceptions *)

Module DestructorExceptions.

Record t : Type := mk {
  close : list Exception
}.

Definition empty : t := mk [].

Definition is_empty (ex : t) : bool :=
  match close ex with [] => true | _ :: _ => false end.

Definition clear (ex : t) : t := mk [].

(** [close.push_back(e)].  Both destructors spell the vector
    [_exceptions->exceptions]; the class has the one vector [close]. *)
Definition push_back (ex : t) (e : Exception) : t := mk (close ex ++ [e]).

End DestructorExceptions.

(** [memcpy(dest, src.data() + off, n)] seen from the source side: the [n]
    bytes of [src] from index [off], undefined when they do not all lie
    inside [src]. *)
Definition memcpy (src : list byte) (off n : Z) : outcome (list byte) :=
  if off + n <=? len src then
    Ok (firstn (Z.to_nat n) (skipn (Z.to_nat off) src))
  else Undefined.

(** ** Serializer *)

Module Serializer.

(** The object.  [_file] is [None] for the null pointer (a failed
    [fopen], a moved-from or closed object).  The [_exceptions] pointer
    refers to a collector shared with other objects: the collector is
    passed to and returned by the one member that touches it, the
    destructor. *)
Record t : Type := mk {
  _file : option FILE;
  _offset : Z;
  _filename : string
}.

Definition with_file (s : t) (f : option FILE) : t :=
  mk f (_offset s) (_filename s).

(** [Serializer(exceptions, filename)], where [opened] is what
    [fopen(filename, "wb")] returned. *)
Definition make (filename : string) (opened : option FILE) : outcome t :=
  match opened with
  | None => Throw (WriteException filename (Some "failed to open"%string))
  | Some f => Ok (mk (Some f) 0 filename)
  end.

Definition get_offset (s : t) : Z := _offset s.

Definition set_offset (s : t) (new_offset : Z) : outcome t :=
  match _file s with
  | None => Undefined
  | Some f =>
      let (ret, f') := fseek f new_offset in
      if negb (ret =? 0) then
        Throw (WriteException (_filename s) (Some "failed to seek"%string))
      else Ok (mk (Some f') new_offset (_filename s))
  end.

Definition set_offset_aligned (s : t) (new_offset alignment : Z) : outcome t :=
  if alignment =? 0 then Undefined
  else
    let mod_ := new_offset mod alignment in
    let new_offset :=
      if negb (mod_ =? 0)
      then U64.add new_offset (U64.sub alignment mod_)
      else new_offset in
    set_offset s new_offset.

(** [write(data, size)]: the first [size] bytes at [data] go to [fwrite];
    reading past the object at [data] is undefined. *)
Definition write (s : t) (data : list byte) (size : Z) : outcome t :=
  match _file s with
  | None => Undefined
  | Some f =>
      if len data <? size then Undefined
      else
        let (n, f') := fwrite f (firstn (Z.to_nat size) data) in
        if negb (n =? size) then Throw (WriteException (_filename s) None)
        else Ok (mk (Some f') (U64.add (_offset s) size) (_filename s))
  end.

Section MaxAlign.

(** [alignof(std::max_align_t)], fixed by the platform. *)
Variable _num_zeroes : Z.

Definition _zeroes : list byte := repeat x00 (Z.to_nat _num_zeroes).

(** The [while (padding > _num_zeroes)] loop of [write_aligned]. *)
Fixpoint write_zero_chunks (fuel : nat) (s : t) (padding : Z)
  : outcome (t * Z) :=
  if padding >? _num_zeroes then
    match fuel with
    | O => OutOfFuel
    | S fuel' =>
        s' <- write s _zeroes _num_zeroes ;;
        write_zero_chunks fuel' s' (U64.sub padding _num_zeroes)
    end
  else Ok (s, padding).

(** The padding step of [write_aligned]: everything before the final
    [write(data, size)]. *)
Definition write_padding (fuel : nat) (s : t) (alignment : Z) : outcome t :=
  if alignment =? 0 then Undefined
  else
    let mod_ := _offset s mod alignment in
    if negb (mod_ =? 0) then
      let padding := U64.sub alignment mod_ in
      '(s', padding') <- write_zero_chunks fuel s padding ;;
      write s' _zeroes padding'
    else Ok s.

Definition write_aligned (fuel : nat) (s : t) (data : list byte)
           (size alignment : Z) : outcome t :=
  s' <- write_padding fuel s alignment ;;
  write s' data size.

End MaxAlign.


Definition write_aligned_value {T : Type} `{Pod T} (num_zeroes : Z)
           (fuel : nat) (s : t) (data : T) : outcome t :=
  write_aligned num_zeroes fuel s (to_bytes data) sizeof alignof.

Definition flush (s : t) : outcome t :=
  match _file s with
  | None => Undefined
  | Some f =>
      if negb (fflush f =? 0) then
        Throw (WriteException (_filename s) (Some "failed to flush"%string))
      else Ok s
  end.

Definition _close (s : t) : outcome t :=
  match _file s with
  | Some f =>
      if negb (fclose f =? 0) then Throw (CloseException (_filename s))
      else Ok (with_file s None)
  | None => Ok s
  end.

(** [~Serializer() noexcept]: the [try] block with its one handler.  An
    exception of another class would leave the destructor. *)
Definition destroy (s : t) (exceptions : DestructorExceptions.t)
  : outcome DestructorExceptions.t :=
  match _close s with
  | Ok _ => Ok exceptions
  | Throw (CloseException filename) =>
      Ok (DestructorExceptions.push_back exceptions (CloseException filename))
  | Throw e => Throw e
  | Undefined => Undefined
  | OutOfFuel => OutOfFuel
  end.

End Serializer.

(** ** Deserializer *)

Module Deserializer.

Record t : Type := mk {
  _file : option FILE;
  _target_page_size : Z;
  _active_page_size : Z;
  _file_offset_page_begin : Z;
  _file_offset_page_end : Z;
  _read_buffer_offset : Z;
  _filename : string;
  _read_buffer : list byte
}.

Definition with_read_buffer_offset (d : t) (o : Z) : t :=
  mk (_file d) (_target_page_size d) (_active_page_size d)
     (_file_offset_page_begin d) (_file_offset_page_end d) o
     (_filename d) (_read_buffer d).

(** [Deserializer(exceptions, filename, page_size)], where [opened] is
    what [fopen(filename, "rb")] returned.  The member initialiser
    [_read_buffer(std::byte{}, page_size)] is taken as [page_size] bytes of
    [std::byte{}], the size [set_page_size] maintains. *)
Definition make (filename : string) (opened : option FILE) (page_size : Z)
  : outcome t :=
  let d := mk opened page_size 0 0 0 page_size filename
              (repeat x00 (Z.to_nat page_size)) in
  match opened with
  | None => Throw (ReadException filename (Some "failed to open"%string))
  | Some _ =>
      if page_size =? 0 then Throw (InvalidPageSizeException page_size)
      else Ok d
  end.


(** [_read_buffer.resize(n)] when the buffer is shorter than [n]. *)
Definition resize (buf : list byte) (n : Z) : list byte :=
  buf ++ repeat x00 (Z.to_nat n - List.length buf).

Definition set_page_size (d : t) (new_page_size : Z) : outcome t :=
  if new_page_size =? 0 then Throw (InvalidPageSizeException new_page_size)
  else
    Ok (mk (_file d) new_page_size (_active_page_size d)
           (_file_offset_page_begin d) (_file_offset_page_end d)
           (_read_buffer_offset d) (_filename d)
           (if len (_read_buffer d) <? new_page_size
            then resize (_read_buffer d) new_page_size
            else _read_buffer d)).

Definition get_offset (d : t) : Z :=
  U64.add (_file_offset_page_begin d) (_read_buffer_offset d).

Definition set_offset (d : t) (new_offset : Z) : outcome t :=
  if (_file_offset_page_begin d <=? new_offset)
     && (new_offset <? U64.add (_file_offset_page_begin d) (_active_page_size d))
  then
    let delta := U64.sub new_offset (_file_offset_page_begin d) in
    Ok (with_read_buffer_offset d delta)
  else
    match _file d with
    | None => Undefined
    | Some f =>
        let (ret, f') := fseek f new_offset in
        if negb (ret =? 0) then Throw (ReadException (_filename d) None)
        else
          Ok (mk (Some f') (_target_page_size d) (_active_page_size d)
                 new_offset new_offset (_active_page_size d)
                 (_filename d) (_read_buffer d))
    end.

Definition is_eof (d : t) : outcome bool :=
  match _file d with
  | None => Undefined
  | Some f => Ok (feof f)
  end.

(** [fread] into [_read_buffer.data()]: the bytes obtained replace the
    front of the buffer, the rest of the buffer keeps its contents.  The
    constructor and [set_page_size] keep the buffer at least as long as the
    target page size, which is the most [_read_page] asks for. *)
Definition store (buf got : list byte) : list byte :=
  got ++ skipn (List.length got) buf.

(** [_read_page()]: the object afterwards and the returned size.  The
    buffer afterwards is the buffer before with the bytes obtained stored at
    its front, which is what an [fread] that transfers the page straight
    into its destination leaves there. *)
Definition _read_page (d : t) : outcome (t * Z) :=
  match _file d with
  | None => Undefined
  | Some f0 =>
      let reconfigure := negb (_active_page_size d =? _target_page_size d) in
      let active := if reconfigure then _target_page_size d
                    else _active_page_size d in
      let f1 := if reconfigure then setvbuf f0 active else f0 in
      let size := active in
      let (got, f2) := fread f1 size in
      let n := len got in
      let buf := store (_read_buffer d) got in
      let result (size : Z) :=
        Ok (mk (Some f2) (_target_page_size d) active
               (_file_offset_page_end d)
               (U64.add (_file_offset_page_end d) size)
               0 (_filename d) buf, size) in
      if negb (n =? size) then
        if ferror f2 || negb (feof f2)
        then Throw (ReadException (_filename d) None)
        else result n
      else result size
  end.

(** The [while] loop of [read]: the object, the bytes copied to [dest] so
    far and the outstanding [size] when the loop is left. *)
Fixpoint read_loop (fuel : nat) (d : t) (dest : list byte) (size : Z)
  : outcome (t * list byte * Z) :=
  if U64.add (_read_buffer_offset d) size >? _active_page_size d then
    match fuel with
    | O => OutOfFuel
    | S fuel' =>
        let lead := U64.sub (_active_page_size d) (_read_buffer_offset d) in
        chunk <- memcpy (_read_buffer d) (_read_buffer_offset d) lead ;;
        let dest := dest ++ chunk in
        let size := U64.sub size lead in
        '(d', n) <- _read_page d ;;
        if (n <? _active_page_size d') && (n <? size) then
          Throw (ReadException (_filename d')
                   (Some "not enough remaining bytes at current offset"%string))
        else read_loop fuel' d' dest size
    end
  else Ok (d, dest, size).

(** [read(dest, size)]: the object afterwards and the bytes left in
    [dest]. *)
Definition read (fuel : nat) (d : t) (size : Z) : outcome (t * list byte) :=
  '(d', dest, size') <- read_loop fuel d [] size ;;
  chunk <- memcpy (_read_buffer d') (_read_buffer_offset d') size' ;;
  Ok (with_read_buffer_offset d' (U64.add (_read_buffer_offset d') size'),
      dest ++ chunk).

(** The padding step of [read_aligned]: everything before the final
    [read(dest, size)]. *)
Definition skip_padding (d : t) (alignment : Z) : outcome t :=
  if alignment =? 0 then Undefined
  else
    let mod_ := _read_buffer_offset d mod alignment in
    if negb (mod_ =? 0) then
      let padding := U64.sub alignment mod_ in
      if U64.add (_read_buffer_offset d) padding >? _active_page_size d then
        '(d', _) <- _read_page d ;; Ok d'
      else
        Ok (with_read_buffer_offset d
              (U64.add (_read_buffer_offset d) padding))
    else Ok d.

Definition read_aligned (fuel : nat) (d : t) (size alignment : Z)
  : outcome (t * list byte) :=
  d' <- skip_padding d alignment ;;
  read fuel d' size.


Definition read_aligned_value {T : Type} `{Pod T} (fuel : nat) (d : t)
  : outcome (t * T) :=
  '(d', dest) <- read_aligned fuel d sizeof alignof ;;
  Ok (d', of_bytes dest).

Definition _close (d : t) : outcome t :=
  match _file d with
  | Some f =>
      if negb (fclose f =? 0) then Throw (CloseException (_filename d))
      else
        Ok (mk None (_target_page_size d) (_active_page_size d)
               (_file_offset_page_begin d) (_file_offset_page_end d)
               (_read_buffer_offset d) (_filename d) (_read_buffer d))
  | None => Ok d
  end.

(** [~Deserializer() noexcept]. *)
Definition destroy (d : t) (exceptions : DestructorExceptions.t)
  : outcome DestructorExceptions.t :=
  match _close d with
  | Ok _ => Ok exceptions
  | Throw (CloseException filename) =>
      Ok (DestructorExceptions.push_back exceptions (CloseException filename))
  | Throw e => Throw e
  | Undefined => Undefined
  | OutOfFuel => OutOfFuel
  end.

End Deserializer.

(** ** Typing and sample objects *)

(** Every [uint64_t] member holds a 64-bit value. *)
Definition reader_typed (d : Deserializer.t) : Prop :=
  U64.fits (Deserializer._target_page_size d)
  /\ U64.fits (Deserializer._active_page_size d)
  /\ U64.fits (Deserializer._file_offset_page_begin d)
  /\ U64.fits (Deserializer._file_offset_page_end d)
  /\ U64.fits (Deserializer._read_buffer_offset d).

(** The six-byte resource [A,B,C,D,E,F]. *)
Definition abcdef : list byte := [x41; x42; x43; x44; x45; x46].

Definition failing_close : Faults :=
  mkFaults (2 ^ 63 - 1) (2 ^ 63 - 1) None false true.

Definition example_writer : Serializer.t :=
  Serializer.mk (Some (fopen [] failing_close)) 0 "out.bin".

Definition example_reader : Deserializer.t :=
  Deserializer.mk (Some (fopen [] failing_close)) 4 0 0 0 4 "in.bin"
    (repeat x00 4).

(** The stream over [abcdef] after [nread] reads have left it at [pos]. *)
Definition abcdef_stream (pos : Z) (eof : bool) (vbuf : option Z)
           (nread nseek : nat) : FILE :=
  mkFILE abcdef pos eof false vbuf nread nseek 0 no_faults.

(** The reader over [abcdef] with page size 4, as [make] leaves it. *)
Definition reader_made : Deserializer.t :=
  Deserializer.mk (Some (fopen abcdef no_faults)) 4 0 0 0 4 "in.bin"
    (repeat x00 4).

(** The same reader holding the first page, three bytes consumed. *)
Definition reader_page1 : Deserializer.t :=
  Deserializer.mk (Some (abcdef_stream 4 false (Some 4) 1 1)) 4 4 0 4 3
    "in.bin" [x41; x42; x43; x44].

(** The same reader holding the short second page, two bytes consumed. *)
Definition reader_page2 : Deserializer.t :=
  Deserializer.mk (Some (abcdef_stream 6 true (Some 4) 2 1)) 4 4 4 6 2
    "in.bin" [x45; x46; x43; x44].


(** What a writer leaves behind after four bytes and one byte [xaa] written
    with [write_aligned] at alignment 8: the value sits at offset 8. *)
Definition aligned_sample : list byte :=
  [x01; x02; x03; x04; x00; x00; x00; x00; xaa].


(** A run of [write] calls, one per chunk, each passing the whole chunk. *)
Fixpoint write_chunks (s : Serializer.t) (chunks : list (list byte))
  : outcome Serializer.t :=
  match chunks with
  | [] => Ok s
  | c :: cs => s' <- Serializer.write s c (len c) ;; write_chunks s' cs
  end.


(** The writer after four bytes, and after the aligned byte that follows. *)
Definition writer_at4 : Serializer.t :=
  Serializer.mk
    (Some (mkFILE [x01; x02; x03; x04] 4 false false None 0 0 1 no_faults))
    4 "out.bin".

Definition writer_at9 : Serializer.t :=
  Serializer.mk
    (Some (mkFILE aligned_sample 9 false false None 0 0 3 no_faults))
    9 "out.bin".


(** [read] from a point inside its loop: [dest] holds the bytes already
    copied and [size] is the outstanding count. *)
Definition read_rest (fuel : nat) (d : Deserializer.t) (dest : list byte)
           (size : Z) : outcome (Deserializer.t * list byte) :=
  '(d', dest', size') <- Deserializer.read_loop fuel d dest size ;;
  chunk <- memcpy (Deserializer._read_buffer d')
             (Deserializer._read_buffer_offset d') size' ;;
  Ok (Deserializer.with_read_buffer_offset d'
        (U64.add (Deserializer._read_buffer_offset d') size'),
      dest' ++ chunk).





(** A writer that seeks to offset 3 in an empty file and writes the pair
    [(x12, x34)], and a reader with page size 1 opened on the result. *)
Definition pair_file : FILE :=
  mkFILE [x00; x00; x00; x12; x34] 5 false false None 0 1 1 no_faults.



Definition pair_writer_done : Serializer.t :=
  Serializer.mk (Some pair_file) 5 "out.bin".

Definition pair_reader_made : Deserializer.t :=
  Deserializer.mk (Some (fopen (bytes pair_file) no_faults)) 1 0 0 0 1
    "out.bin" [x00].

Definition pair_reader_sought : Deserializer.t :=
  Deserializer.mk
    (Some (mkFILE (bytes pair_file) 3 false false None 0 1 0 no_faults))
    1 0 3 3 0 "out.bin" [x00].


(** The bound the read cursor is meant to keep. *)
Definition cursor_in_page (d : Deserializer.t) : Prop :=
  0 <= Deserializer._read_buffer_offset d <= Deserializer._active_page_size d.


(** ** Further notions used by the properties *)

(** The writer's logical offset is the position of its stream. *)
Definition writer_synced (s : Serializer.t) : Prop :=
  exists f, Serializer._file s = Some f /\ pos f = Serializer._offset s.

(** [new_offset] rounded up to the next multiple of [alignment]. *)
Definition round_up (new_offset alignment : Z) : Z :=
  if new_offset mod alignment =? 0 then new_offset
  else new_offset + (alignment - new_offset mod alignment).


(** The state a reader is in between calls once it has been positioned: an
    open stream, 64-bit members, the cursor inside the active page and the
    buffer long enough for the active and the target page. *)
Definition reader_safe (d : Deserializer.t) : Prop :=
  reader_typed d
  /\ (exists f, Deserializer._file d = Some f)
  /\ 0 < Deserializer._target_page_size d
  /\ Deserializer._target_page_size d <= len (Deserializer._read_buffer d)
  /\ Deserializer._active_page_size d <= len (Deserializer._read_buffer d)
  /\ len (Deserializer._read_buffer d) < U64.modulus
  /\ cursor_in_page d.


(** A stream without a bad byte whose error indicator is clear. *)
Definition stream_clean (f : FILE) : Prop :=
  bad_byte (faults f) = None /\ error f = false.

(** The reader [d] over the stream [f] holds in its buffer the page of the
    stream that starts at [_file_offset_page_begin]: up to
    [_target_page_size] bytes, fewer at the end of the data.  The cursor
    lies within the bytes obtained, and the stream stands just behind
    them. *)
Definition reader_loaded (d : Deserializer.t) (f : FILE) : Prop :=
  let P := Deserializer._target_page_size d in
  let b := Deserializer._file_offset_page_begin d in
  let n := Z.min P (Z.max 0 (len (bytes f) - b)) in
  Deserializer._file d = Some f
  /\ stream_clean f
  /\ 0 < P
  /\ Deserializer._active_page_size d = P
  /\ P <= len (Deserializer._read_buffer d)
  /\ len (bytes f) + P < U64.modulus
  /\ 0 <= b <= len (bytes f)
  /\ 0 <= Deserializer._read_buffer_offset d <= n
  /\ Deserializer._file_offset_page_end d = b + n
  /\ pos f = b + n
  /\ exists junk,
      Deserializer._read_buffer d
      = firstn (Z.to_nat P) (skipn (Z.to_nat b) (bytes f)) ++ junk.

(** The reader [d] has sought to position [q] of the stream [f] and holds
    no page of it: the cursor is at the end of the active page, and the
    next refill reads from [q]. *)
Definition reader_sought (d : Deserializer.t) (f : FILE) (q : Z) : Prop :=
  Deserializer._file d = Some f
  /\ stream_clean f
  /\ 0 < Deserializer._target_page_size d
  /\ Deserializer._target_page_size d <= len (Deserializer._read_buffer d)
  /\ len (bytes f) + Deserializer._target_page_size d < U64.modulus
  /\ 0 <= Deserializer._active_page_size d <= Deserializer._target_page_size d
  /\ Deserializer._read_buffer_offset d = Deserializer._active_page_size d
  /\ Deserializer._file_offset_page_end d = q
  /\ pos f = q
  /\ 0 <= q <= len (bytes f).

(** The next byte a [read] of [d] delivers is the byte at position [q] of
    the stream [f]. *)
Definition reader_at (d : Deserializer.t) (f : FILE) (q : Z) : Prop :=
  (reader_loaded d f
   /\ q = Deserializer._file_offset_page_begin d
          + Deserializer._read_buffer_offset d)
  \/ reader_sought d f q.

(** The number of refills a request that overshoots the active page by [m]
    bytes needs at page size [P]. *)
Definition refills (m P : Z) : Z :=
  if m <=? 0 then 0 else (m - 1) / P + 1.

(** The bytes of the stream from position [q], [size] of them. *)
Definition stream_slice (f : FILE) (q size : Z) : list byte :=
  firstn (Z.to_nat size) (skipn (Z.to_nat q) (bytes f)).


(** What a [noexcept] function does: it returns, or an exception reaches
    its boundary and [std::terminate] ends the program. *)
Inductive noexcept_result (A : Type) : Type :=
| Returned (a : A)
| Terminated.

Arguments Returned {A} a.
Arguments Terminated {A}.

(** [Serializer(Serializer &&other) noexcept]: the new object and [other]
    afterwards.  [residue] is what the move leaves in [other._filename],
    which the language does not fix. *)
Definition move_serializer (other : Serializer.t) (residue : string)
  : Serializer.t * Serializer.t :=
  (Serializer.mk (Serializer._file other) (Serializer._offset other)
     (Serializer._filename other),
   Serializer.mk None (Serializer._offset other) residue).

(** [Serializer &operator=(Serializer &&other) noexcept] between two
    distinct objects: [*this] and [other] afterwards.  [_close()] runs
    outside any [try] block. *)
Definition move_assign_serializer (this other : Serializer.t)
           (residue : string)
  : noexcept_result (Serializer.t * Serializer.t) :=
  match Serializer._close this with
  | Ok _ => Returned (move_serializer other residue)
  | Throw _ | Undefined | OutOfFuel => Terminated
  end.

(** [Deserializer(Deserializer &&other) noexcept]; [residue] and
    [residue_buffer] are what the moves leave in [other._filename] and
    [other._read_buffer]. *)
Definition move_deserializer (other : Deserializer.t) (residue : string)
           (residue_buffer : list byte)
  : Deserializer.t * Deserializer.t :=
  (Deserializer.mk (Deserializer._file other)
     (Deserializer._target_page_size other)
     (Deserializer._active_page_size other)
     (Deserializer._file_offset_page_begin other)
     (Deserializer._file_offset_page_end other)
     (Deserializer._read_buffer_offset other)
     (Deserializer._filename other) (Deserializer._read_buffer other),
   Deserializer.mk None
     (Deserializer._target_page_size other)
     (Deserializer._active_page_size other)
     (Deserializer._file_offset_page_begin other)
     (Deserializer._file_offset_page_end other)
     (Deserializer._read_buffer_offset other)
     residue residue_buffer).

(** [Deserializer &operator=(Deserializer &&other) noexcept] between two
    distinct objects. *)
Definition move_assign_deserializer (this other : Deserializer.t)
           (residue : string) (residue_buffer : list byte)
  : noexcept_result (Deserializer.t * Deserializer.t) :=
  match Deserializer._close this with
  | Ok _ => Returned (move_deserializer other residue residue_buffer)
  | Throw _ | Undefined | OutOfFuel => Terminated
  end.


(** A reader with page size 8 over [aligned_sample] that has read the first
    four bytes. *)
Definition aligned_stream : FILE :=
  mkFILE aligned_sample 8 false false (Some 8) 1 1 0 no_faults.

Definition aligned_reader : Deserializer.t :=
  Deserializer.mk (Some aligned_stream) 8 8 0 8 4 "out.bin"
    [x01; x02; x03; x04; x00; x00; x00; x00].


(** A two-byte value with alignment 2. *)
Definition pod_u16 : Pod (byte * byte) :=
  {| sizeof := 2;
     alignof := 2;
     to_bytes := fun v => [fst v; snd v];
     of_bytes := fun l => match l with
                          | a :: b :: _ => (a, b)
                          | _ => (x00, x00)
                          end;
     to_bytes_len := fun v => eq_refl;
     of_to_bytes := fun v => match v with (a, b) => eq_refl end |}.

(** A writer at offset 1, the file it leaves after writing [(x12, x34)]
    aligned, and a reader with page size 4 standing at offset 1 of that
    file. *)
Definition u16_writer : Serializer.t :=
  Serializer.mk (Some (mkFILE [x07] 1 false false None 0 0 1 no_faults)) 1
    "out.bin".

Definition u16_file : FILE :=
  mkFILE [x07; x00; x12; x34] 4 false false None 0 0 3 no_faults.

Definition u16_stream : FILE :=
  mkFILE [x07; x00; x12; x34] 4 false false (Some 4) 1 1 0 no_faults.

Definition u16_reader : Deserializer.t :=
  Deserializer.mk (Some u16_stream) 4 4 0 4 1 "out.bin"
    [x07; x00; x12; x34].


(** ** Readers used front to back *)

(** The bytes of [content] from position [q], [size] of them. *)
Definition slice (content : list byte) (q size : Z) : list byte :=
  firstn (Z.to_nat size) (skipn (Z.to_nat q) content).

(** The reader [d] over the stream [f] delivers the byte at position [q]
    next: it holds the page around [q], or it has been positioned at [q]
    and has not refilled yet (its active page is still empty). *)
Definition reader_on (d : Deserializer.t) (f : FILE) (q : Z) : Prop :=
  (reader_loaded d f
   /\ q = Deserializer._file_offset_page_begin d
          + Deserializer._read_buffer_offset d)
  \/ (reader_sought d f q
      /\ Deserializer._active_page_size d = 0
      /\ Deserializer._file_offset_page_begin d = q).

(** [sequential content d q]: the history of a reader that reads a file
    front to back.  [d] was constructed on the freshly opened file holding
    [content] and positioned by its first [set_offset]; since then it has
    served [read]s of bytes that are in the file and [set_offset]s to
    positions inside the buffered page, which leave the stream alone.  [q]
    is the position of the byte it is to deliver next.  In such a history
    the stream is sought once, before the first refill passes
    [_read_buffer] to [setvbuf], and every [fread] after that asks for a
    whole page. *)
Inductive sequential (content : list byte) : Deserializer.t -> Z -> Prop :=
| sequential_open (filename : string) (fl : Faults)
    (page_size new_offset : Z) (d0 d : Deserializer.t) :
    bad_byte fl = None ->
    0 <= page_size ->
    len content + page_size < U64.modulus ->
    0 <= new_offset <= len content ->
    Deserializer.make filename (Some (fopen content fl)) page_size = Ok d0 ->
    Deserializer.set_offset d0 new_offset = Ok d ->
    sequential content d new_offset
| sequential_read (fuel : nat) (d d' : Deserializer.t) (q size : Z)
    (out : list byte) :
    sequential content d q ->
    0 <= size -> q + size <= len content ->
    Deserializer.read fuel d size = Ok (d', out) ->
    sequential content d' (q + size)
| sequential_set_offset (d d' : Deserializer.t) (q new_offset : Z) :
    sequential content d q ->
    (Deserializer._file_offset_page_begin d <=? new_offset)
    && (new_offset <? U64.add (Deserializer._file_offset_page_begin d)
                        (Deserializer._active_page_size d)) = true ->
    new_offset <= len content ->
    Deserializer.set_offset d new_offset = Ok d' ->
    sequential content d' new_offset.



(** * Properties *)

(** ** Arithmetic and outcome facts *)

Lemma modulus_pos : 0 < U64.modulus.
Proof. reflexivity. Qed.

Lemma wrap_fits (z : Z) : U64.fits (U64.wrap z).
Proof. unfold U64.fits, U64.wrap. apply Z.mod_pos_bound. exact modulus_pos. Qed.

Lemma wrap_small (z : Z) : U64.fits z -> U64.wrap z = z.
Proof. unfold U64.fits, U64.wrap. intros H. apply Z.mod_small. exact H. Qed.

Lemma add_small (a b : Z) : U64.fits (a + b) -> U64.add a b = a + b.
Proof. apply wrap_small. Qed.

Lemma sub_small (a b : Z) : U64.fits (a - b) -> U64.sub a b = a - b.
Proof. apply wrap_small. Qed.

Lemma add_0_r (a : Z) : U64.fits a -> U64.add a 0 = a.
Proof. intros H. unfold U64.add. rewrite Z.add_0_r. apply wrap_small, H. Qed.

Lemma add_sub_cancel (a b : Z) : U64.fits b -> U64.add a (U64.sub b a) = b.
Proof.
  intros Hb. unfold U64.add, U64.sub, U64.wrap.
  rewrite Zplus_mod_idemp_r.
  replace (a + (b - a)) with b by ring.
  apply Z.mod_small, Hb.
Qed.

(** Adding a 64-bit quantity gives back the same value only when the
    quantity is zero. *)
Lemma add_fixpoint (a s : Z) :
  U64.fits a -> U64.fits s -> (U64.add a s = a <-> s = 0).
Proof.
  unfold U64.fits, U64.add, U64.wrap, U64.modulus. intros Ha Hs. split.
  - intros H.
    destruct (Z_lt_ge_dec (a + s) (2 ^ 64)) as [Hlt | Hge].
    + rewrite Z.mod_small in H by lia. lia.
    + replace (a + s) with ((a + s - 2 ^ 64) + 1 * 2 ^ 64) in H by ring.
      rewrite Z_mod_plus_full in H.
      rewrite Z.mod_small in H by lia. lia.
  - intros ->. rewrite Z.add_0_r. apply Z.mod_small. lia.
Qed.

Lemma bind_Ok {A B : Type} (m : outcome A) (k : A -> outcome B) (b : B) :
  bind m k = Ok b -> exists a, m = Ok a /\ k a = Ok b.
Proof.
  destruct m as [a| | |]; simpl; intros H; try discriminate.
  exists a. split; [reflexivity | exact H].
Qed.

Lemma len_nonneg {A : Type} (l : list A) : 0 <= len l.
Proof. unfold len. lia. Qed.

Lemma len_app {A : Type} (l1 l2 : list A) : len (l1 ++ l2) = len l1 + len l2.
Proof. unfold len. rewrite length_app. lia. Qed.

(** ** Release *)

Lemma fclose_fails (f : FILE) : fclose f <> 0 -> negb (fclose f =? 0) = true.
Proof.
  intros H. destruct (fclose f =? 0) eqn:E; [| reflexivity].
  apply Z.eqb_eq in E. contradiction.
Qed.

(** The destructors defer a close failure: destroying a [Serializer] or a
    [Deserializer] whose [fclose] fails returns normally, and the collector
    it is bound to holds afterwards the records it held before followed by
    exactly one [CloseException] naming the file of the destroyed object. *)
Lemma destroy_defers_close_failure
  (s : Serializer.t) (d : Deserializer.t) (fs fd : FILE)
  (exceptions : DestructorExceptions.t)
  (Hs : Serializer._file s = Some fs) (Hfs : fclose fs <> 0)
  (Hd : Deserializer._file d = Some fd) (Hfd : fclose fd <> 0) :
  Serializer.destroy s exceptions
    = Ok (DestructorExceptions.mk
            (DestructorExceptions.close exceptions
               ++ [CloseException (Serializer._filename s)]))
  /\ Deserializer.destroy d exceptions
    = Ok (DestructorExceptions.mk
            (DestructorExceptions.close exceptions
               ++ [CloseException (Deserializer._filename d)])).
Proof.
  split.
  - unfold Serializer.destroy, Serializer._close. rewrite Hs.
    rewrite (fclose_fails fs Hfs). reflexivity.
  - unfold Deserializer.destroy, Deserializer._close. rewrite Hd.
    rewrite (fclose_fails fd Hfd). reflexivity.
Qed.

(** A destructor returns normally whatever the state of the object. *)
Lemma destroy_never_raises (s : Serializer.t) (d : Deserializer.t)
  (exceptions : DestructorExceptions.t) :
  succeeded (Serializer.destroy s exceptions)
  /\ succeeded (Deserializer.destroy d exceptions).
Proof.
  unfold succeeded, Serializer.destroy, Serializer._close,
    Deserializer.destroy, Deserializer._close. split.
  - destruct (Serializer._file s) as [f |]; [| eauto].
    destruct (negb (fclose f =? 0)); eauto.
  - destruct (Deserializer._file d) as [f |]; [| eauto].
    destruct (negb (fclose f =? 0)); eauto.
Qed.

(** C9, on the code.  Two objects whose [fclose] fails.  Destroying either
    returns normally and leaves exactly one [CloseException] naming its file
    in the collector.  Move-assigning to either, which releases the same
    handle through the same [_close()] but outside any [try] block, lets
    the [CloseException] reach the [noexcept] boundary: the program is
    terminated, and no collector receives a record. *)
Theorem close_failure_in_move_assignment :
  Serializer.destroy example_writer DestructorExceptions.empty
  = Ok (DestructorExceptions.mk [CloseException "out.bin"])
  /\ Deserializer.destroy example_reader DestructorExceptions.empty
     = Ok (DestructorExceptions.mk [CloseException "in.bin"])
  /\ move_assign_serializer example_writer pair_writer_done EmptyString
     = Terminated
  /\ move_assign_deserializer example_reader pair_reader_sought EmptyString []
     = Terminated.
Proof. repeat split. Qed.

(** ** Seeking in the reader *)

(** C7.  When [new_offset] lies inside the buffered page, as [set_offset]
    tests it, the call returns the object with [_read_buffer_offset] set to
    [new_offset - _file_offset_page_begin] and every other member, the
    stream with its call counters included, as it was; [get_offset] then
    returns [new_offset]. *)
Theorem set_offset_fast_path (d : Deserializer.t) (new_offset : Z)
  (Hd : reader_typed d) (Hpos : U64.fits new_offset)
  (Hlo : Deserializer._file_offset_page_begin d <= new_offset)
  (Hhi : new_offset < U64.add (Deserializer._file_offset_page_begin d)
                              (Deserializer._active_page_size d)) :
  let d' := Deserializer.with_read_buffer_offset d
              (new_offset - Deserializer._file_offset_page_begin d) in
  Deserializer.set_offset d new_offset = Ok d'
  /\ Deserializer._file d' = Deserializer._file d
  /\ Deserializer._target_page_size d' = Deserializer._target_page_size d
  /\ Deserializer._active_page_size d' = Deserializer._active_page_size d
  /\ Deserializer._file_offset_page_begin d' = Deserializer._file_offset_page_begin d
  /\ Deserializer._file_offset_page_end d' = Deserializer._file_offset_page_end d
  /\ Deserializer._read_buffer d' = Deserializer._read_buffer d
  /\ Deserializer.get_offset d' = new_offset.
Proof.
  destruct Hd as (_ & _ & Hb & _ & _).
  assert (Hdelta : U64.sub new_offset (Deserializer._file_offset_page_begin d)
                   = new_offset - Deserializer._file_offset_page_begin d).
  { apply sub_small. unfold U64.fits in *. lia. }
  intros d'. subst d'. repeat split; try reflexivity.
  - unfold Deserializer.set_offset.
    apply Z.leb_le in Hlo. apply Z.ltb_lt in Hhi.
    rewrite Hlo, Hhi. simpl. rewrite Hdelta. reflexivity.
  - unfold Deserializer.get_offset. simpl.
    rewrite <- Hdelta. apply add_sub_cancel. exact Hpos.
Qed.

Lemma set_offset_fast_path_witness :
  Deserializer.set_offset
    (Deserializer.mk (Some (fopen abcdef no_faults)) 4 4 0 4 3 "in.bin"
       [x41; x42; x43; x44]) 1
  = Ok (Deserializer.mk (Some (fopen abcdef no_faults)) 4 4 0 4 1 "in.bin"
          [x41; x42; x43; x44]).
Proof.
  apply (@set_offset_fast_path
           (Deserializer.mk (Some (fopen abcdef no_faults)) 4 4 0 4 3 "in.bin"
              [x41; x42; x43; x44]) 1);
    unfold reader_typed, U64.fits; simpl; repeat split; vm_compute;
      congruence.
Defined.

(** After a refill the page begins where the previous one ended and the
    cursor is at its start. *)
Lemma read_page_begin (d d' : Deserializer.t) (n : Z) :
  Deserializer._read_page d = Ok (d', n) ->
  Deserializer._file_offset_page_begin d' = Deserializer._file_offset_page_end d
  /\ Deserializer._read_buffer_offset d' = 0
  /\ Deserializer._active_page_size d' = Deserializer._target_page_size d
  /\ Deserializer._target_page_size d' = Deserializer._target_page_size d
  /\ Deserializer._file_offset_page_end d'
     = U64.add (Deserializer._file_offset_page_end d) n.
Proof.
  unfold Deserializer._read_page.
  destruct (Deserializer._file d) as [f0 |]; [| discriminate].
  destruct (Z.eqb_spec (Deserializer._active_page_size d)
                       (Deserializer._target_page_size d)) as [E | E];
    cbv beta iota zeta delta [negb];
    match goal with |- context [fread ?f ?z] => destruct (fread f z) as [got f2] end;
    destruct (len got =? _); try destruct (ferror f2 || _);
    intros H; inversion H; subst; cbn [Deserializer._file_offset_page_begin
      Deserializer._read_buffer_offset Deserializer._active_page_size
      Deserializer._target_page_size Deserializer._file_offset_page_end];
    rewrite ?E; repeat split.
Qed.

(** C10.  A [set_offset] that takes the seeking branch leaves [get_offset]
    at [new_offset + _active_page_size] (in 64-bit arithmetic), which is
    [new_offset] only when [_active_page_size] is zero; after the next
    refill [get_offset] is [new_offset].  A freshly constructed object
    reports its page size, which is not zero. *)
Theorem get_offset_after_seek_and_make
  (d d1 d0 : Deserializer.t) (new_offset page_size : Z)
  (filename : string) (opened : option FILE)
  (Hd : reader_typed d) (Hpos : U64.fits new_offset)
  (Hslow : (Deserializer._file_offset_page_begin d <=? new_offset)
           && (new_offset <? U64.add (Deserializer._file_offset_page_begin d)
                                     (Deserializer._active_page_size d))
           = false)
  (Hseek : Deserializer.set_offset d new_offset = Ok d1)
  (Hsize : U64.fits page_size)
  (Hmake : Deserializer.make filename opened page_size = Ok d0) :
  Deserializer.get_offset d1
    = U64.add new_offset (Deserializer._active_page_size d)
  /\ (Deserializer.get_offset d1 = new_offset
      <-> Deserializer._active_page_size d = 0)
  /\ (forall d2 n, Deserializer._read_page d1 = Ok (d2, n) ->
                   Deserializer.get_offset d2 = new_offset)
  /\ Deserializer.get_offset d0 = page_size
  /\ page_size <> 0.
Proof.
  destruct Hd as (_ & Ha & _ & _ & _).
  unfold Deserializer.set_offset in Hseek. rewrite Hslow in Hseek.
  destruct (Deserializer._file d) as [f |]; [| discriminate].
  destruct (fseek f new_offset) as [ret f'].
  destruct (negb (ret =? 0)); [discriminate |].
  inversion Hseek; subst d1; clear Hseek.
  unfold Deserializer.make in Hmake.
  destruct opened as [f0 |]; [| discriminate].
  destruct (Z.eqb_spec page_size 0) as [E | E]; [discriminate |].
  inversion Hmake; subst d0; clear Hmake.
  split; [reflexivity |].
  split; [unfold Deserializer.get_offset; simpl;
          apply add_fixpoint; assumption |].
  split.
  - intros d2 n H. apply read_page_begin in H.
    destruct H as (Hb & Hc & _). unfold Deserializer.get_offset.
    rewrite Hb, Hc. simpl. apply add_0_r. exact Hpos.
  - split; [| exact E].
    unfold Deserializer.get_offset. simpl. apply wrap_small. exact Hsize.
Qed.

Lemma get_offset_after_seek_and_make_witness :
  Deserializer.get_offset
    (Deserializer.mk (Some (abcdef_stream 4 false (Some 4) 1 2)) 4 4 4 4 4
       "in.bin" [x41; x42; x43; x44])
    = U64.add 4 4
  /\ Deserializer.get_offset reader_made = 4.
Proof.
  pose proof
    (@get_offset_after_seek_and_make reader_page1
       (Deserializer.mk (Some (abcdef_stream 4 false (Some 4) 1 2)) 4 4 4 4 4
          "in.bin" [x41; x42; x43; x44])
       reader_made 4 4 "in.bin" (Some (fopen abcdef no_faults))) as H.
  destruct H as (H1 & _ & _ & H2 & _);
    first [ split; assumption
          | reflexivity
          | unfold reader_typed, U64.fits; simpl; repeat split; vm_compute;
            congruence ].
Defined.

(** ** Page refill *)

(** [_read_page] written out over the stream it reads from. *)
Lemma read_page_unfold (d : Deserializer.t) (f : FILE) :
  Deserializer._file d = Some f ->
  let target := Deserializer._target_page_size d in
  let f1 := if Deserializer._active_page_size d =? target
            then f else setvbuf f target in
  let got := fst (fread f1 target) in
  let f2 := snd (fread f1 target) in
  Deserializer._read_page d
  = if negb (len got =? target) then
      if ferror f2 || negb (feof f2)
      then Throw (ReadException (Deserializer._filename d) None)
      else Ok (Deserializer.mk (Some f2) target target
                 (Deserializer._file_offset_page_end d)
                 (U64.add (Deserializer._file_offset_page_end d) (len got))
                 0 (Deserializer._filename d)
                 (Deserializer.store (Deserializer._read_buffer d) got),
               len got)
    else Ok (Deserializer.mk (Some f2) target target
               (Deserializer._file_offset_page_end d)
               (U64.add (Deserializer._file_offset_page_end d) target)
               0 (Deserializer._filename d)
               (Deserializer.store (Deserializer._read_buffer d) got),
             target).
Proof.
  intros Hfile target f1 got f2.
  unfold Deserializer._read_page. rewrite Hfile.
  subst got f2 f1. fold target.
  destruct (Z.eqb_spec (Deserializer._active_page_size d) target) as [E | E];
    cbv beta iota zeta delta [negb]; rewrite ?E;
    match goal with |- context [fread ?s ?z] => destruct (fread s z) end;
    reflexivity.
Qed.

(** C3, as stated, fails: the refill that obtains the two bytes [E,F] of the
    short final page leaves [_active_page_size] at 4. *)
Lemma read_page_active_size_counterexample :
  len (fst (fread (abcdef_stream 4 false (Some 4) 1 1) 4)) = 2
  /\ exists d', Deserializer._read_page reader_page1 = Ok (d', 2)
                /\ Deserializer._active_page_size d' = 4
                /\ Deserializer._active_page_size d' <> 2.
Proof.
  split; [reflexivity |].
  eexists. split; [vm_compute; reflexivity |].
  split; [reflexivity | discriminate].
Qed.

(** C3, amended.  A refill asks the stream for [_target_page_size] bytes.
    When it obtains them all, or obtains fewer with the end-of-file
    indicator raised and the error indicator clear, it succeeds: it returns
    the number of bytes obtained, leaves [_active_page_size] equal to the
    target page size, moves [_file_offset_page_begin] to the old
    [_file_offset_page_end], advances [_file_offset_page_end] by the number
    of bytes obtained and resets [_read_buffer_offset] to 0.  When it
    obtains fewer and the stream is in error or not at end of file, it
    throws the read exception. *)
Theorem read_page_effect (d : Deserializer.t) (f : FILE)
  (Hfile : Deserializer._file d = Some f) :
  let target := Deserializer._target_page_size d in
  let f1 := if Deserializer._active_page_size d =? target
            then f else setvbuf f target in
  let got := fst (fread f1 target) in
  let f2 := snd (fread f1 target) in
  (len got = target \/ (ferror f2 = false /\ feof f2 = true) ->
   Deserializer._read_page d
   = Ok (Deserializer.mk (Some f2) target target
           (Deserializer._file_offset_page_end d)
           (U64.add (Deserializer._file_offset_page_end d) (len got))
           0 (Deserializer._filename d)
           (Deserializer.store (Deserializer._read_buffer d) got),
         len got))
  /\ (len got <> target -> ferror f2 = true \/ feof f2 = false ->
      Deserializer._read_page d
      = Throw (ReadException (Deserializer._filename d) None)).
Proof.
  intros target f1 got f2.
  pose proof (read_page_unfold d Hfile) as Hrun. cbv zeta in Hrun.
  fold target f1 got f2 in Hrun.
  rewrite Hrun. clear Hrun. clearbody got f2. split.
  - intros [Hfull | [Herr Heof]].
    + rewrite Hfull, Z.eqb_refl. reflexivity.
    + destruct (Z.eqb_spec (len got) target) as [E | E]; simpl.
      * rewrite E. reflexivity.
      * rewrite Herr, Heof. reflexivity.
  - intros Hshort Hbad.
    destruct (Z.eqb_spec (len got) target) as [E | E]; [contradiction |].
    simpl. destruct Hbad as [-> | ->]; [reflexivity |].
    rewrite orb_true_r. reflexivity.
Qed.

Lemma read_page_effect_witness :
  Deserializer._read_page reader_page1
  = Ok (Deserializer.mk (Some (abcdef_stream 6 true (Some 4) 2 1)) 4 4 4
          (U64.add 4 2) 0 "in.bin" [x45; x46; x43; x44], 2).
Proof.
  apply (@read_page_effect reader_page1 (abcdef_stream 4 false (Some 4) 1 1)
           eq_refl).
  right. split; reflexivity.
Defined.

(** ** The six-byte scenario *)

(** C1, on the code.  Page size 4 over [A,B,C,D,E,F].  Straight after
    construction [read(3)] copies [0 - 4] (mod 2^64) bytes from past the end
    of the buffer.  After a [set_offset(0)] the two reads of three bytes
    return [A,B,C] and [D,E,F] with two [fread] calls and the end-of-file
    indicator raised, and the further [read(1)] returns the stale buffer
    byte [C] instead of throwing. *)
Theorem short_page_scenario :
  (forall fuel, Deserializer.read (S fuel) reader_made 3 = Undefined)
  /\ exists d0 d3,
      Deserializer.set_offset reader_made 0 = Ok d0
      /\ Deserializer.read 4 d0 3 = Ok (reader_page1, [x41; x42; x43])
      /\ Deserializer.read 4 reader_page1 3 = Ok (reader_page2, [x44; x45; x46])
      /\ Deserializer._file reader_page2
         = Some (abcdef_stream 6 true (Some 4) 2 1)
      /\ Deserializer.is_eof reader_page2 = Ok true
      /\ Deserializer.read 4 reader_page2 1 = Ok (d3, [x43]).
Proof.
  split; [intros fuel; reflexivity |].
  do 2 eexists.
  repeat (split; [vm_compute; reflexivity |]).
  vm_compute. reflexivity.
Qed.

(** C2, on the code.  The constructor sets [_read_buffer_offset] to the page
    size and [_active_page_size] to 0. *)
Theorem make_cursor_exceeds_active_page :
  Deserializer.make "in.bin" (Some (fopen abcdef no_faults)) 4 = Ok reader_made
  /\ Deserializer._read_buffer_offset reader_made = 4
  /\ Deserializer._active_page_size reader_made = 0
  /\ ~ (0 <= Deserializer._read_buffer_offset reader_made
          <= Deserializer._active_page_size reader_made).
Proof.
  repeat split; try reflexivity. simpl. lia.
Qed.

(** The same for every page size the constructor accepts. *)
Lemma make_cursor_state (filename : string) (opened : option FILE)
  (page_size : Z) (d : Deserializer.t) :
  Deserializer.make filename opened page_size = Ok d ->
  Deserializer._read_buffer_offset d = page_size
  /\ Deserializer._active_page_size d = 0
  /\ page_size <> 0.
Proof.
  unfold Deserializer.make. destruct opened; [| discriminate].
  destruct (Z.eqb_spec page_size 0); [discriminate |].
  intros H. inversion H. repeat split; assumption.
Qed.

(** ** Offsets *)

Lemma write_advances_offset (s s' : Serializer.t) (data : list byte) (size : Z) :
  Serializer.write s data size = Ok s' ->
  Serializer.get_offset s' = U64.add (Serializer.get_offset s) size
  /\ Serializer._filename s' = Serializer._filename s.
Proof.
  unfold Serializer.write.
  destruct (Serializer._file s) as [f |]; [| discriminate].
  destruct (len data <? size); [discriminate |].
  destruct (fwrite f (firstn (Z.to_nat size) data)) as [n f'].
  destruct (negb (n =? size)); [discriminate |].
  intros H. inversion H. split; reflexivity.
Qed.

(** C4, on the code.  Page size 4 over [A,B,C,D,E,F]: once the first page is
    buffered, [set_offset(4)] seeks and leaves [get_offset] at 8; the
    [read] of two bytes that follows succeeds, returns [E,F], and leaves
    [get_offset] at 6, not at 8 + 2. *)
Theorem read_offset_after_seek :
  exists d0 d2 d3,
    Deserializer.set_offset reader_made 0 = Ok d0
    /\ Deserializer.read 4 d0 3 = Ok (reader_page1, [x41; x42; x43])
    /\ Deserializer.set_offset reader_page1 4 = Ok d2
    /\ Deserializer.get_offset d2 = 8
    /\ Deserializer.read 4 d2 2 = Ok (d3, [x45; x46])
    /\ Deserializer.get_offset d3 = 6
    /\ Deserializer.get_offset d3 <> Deserializer.get_offset d2 + 2.
Proof.
  do 3 eexists.
  repeat (split; [vm_compute; reflexivity |]).
  vm_compute. discriminate.
Qed.

(** ** Alignment in the reader *)

(** C8, on the code.  A writer puts four bytes and then one byte at alignment
    8, which lands at offset 8 behind four zero bytes.  A reader of that
    file positioned at offset 4 computes its padding from
    [_read_buffer_offset], which is 0, skips nothing and returns the
    padding byte at offset 4. *)
Theorem read_aligned_pads_from_buffer_offset :
  exists s0 s1 s2 f d0 d1 d2,
    Serializer.make "out.bin" (Some (fopen [] no_faults)) = Ok s0
    /\ Serializer.write s0 [x01; x02; x03; x04] 4 = Ok s1
    /\ Serializer.write_aligned 16 1 s1 [xaa] 1 8 = Ok s2
    /\ Serializer._file s2 = Some f /\ bytes f = aligned_sample
    /\ Serializer.get_offset s2 = 9
    /\ Deserializer.make "out.bin" (Some (fopen aligned_sample no_faults)) 4
       = Ok d0
    /\ Deserializer.set_offset d0 4 = Ok d1
    /\ Deserializer.get_offset d1 = 4
    /\ (8 - Deserializer.get_offset d1 mod 8) mod 8 = 4
    /\ Deserializer.skip_padding d1 8 = Ok d1
    /\ Deserializer.read_aligned 4 d1 1 8 = Ok (d2, [x00])
    /\ Deserializer.get_offset d2 = 5.
Proof.
  do 7 eexists.
  repeat (split; [vm_compute; reflexivity |]).
  vm_compute. reflexivity.
Qed.

(** ** Alignment in the writer *)

Lemma add_assoc (o a b : Z) : U64.add (U64.add o a) b = U64.add o (a + b).
Proof.
  unfold U64.add, U64.wrap. rewrite Zplus_mod_idemp_l.
  f_equal. ring.
Qed.

Lemma len_repeat {A : Type} (x : A) (n : nat) : len (repeat x n) = Z.of_nat n.
Proof. unfold len. rewrite repeat_length. reflexivity. Qed.

Lemma len_firstn {A : Type} (l : list A) (n : Z) :
  0 <= n <= len l -> len (firstn (Z.to_nat n) l) = n.
Proof. unfold len. intros H. rewrite length_firstn. lia. Qed.

Lemma in_firstn {A : Type} (x : A) (n : nat) (l : list A) :
  In x (firstn n l) -> In x l.
Proof.
  intros H. rewrite <- (firstn_skipn n l). apply in_or_app. left. exact H.
Qed.

(** A [write] of the first [size] bytes of an object is the [write] of
    exactly those bytes. *)
Lemma write_prefix (s : Serializer.t) (data : list byte) (size : Z) :
  0 <= size <= len data ->
  Serializer.write s data size
  = Serializer.write s (firstn (Z.to_nat size) data)
      (len (firstn (Z.to_nat size) data)).
Proof.
  intros H. unfold Serializer.write.
  destruct (Serializer._file s) as [f |]; [| reflexivity].
  rewrite (len_firstn data H).
  replace (len data <? size) with false by (symmetry; apply Z.ltb_ge; lia).
  rewrite Z.ltb_irrefl.
  rewrite firstn_firstn, Nat.min_id. reflexivity.
Qed.

Lemma write_chunks_app (s : Serializer.t) (c1 c2 : list (list byte)) :
  write_chunks s (c1 ++ c2) = (s' <- write_chunks s c1 ;; write_chunks s' c2).
Proof.
  revert s. induction c1 as [| c cs IH]; intros s; simpl; [reflexivity |].
  destruct (Serializer.write s c (len c)); simpl; auto.
Qed.

Lemma write_chunks_offset (chunks : list (list byte)) (s s' : Serializer.t) :
  write_chunks s chunks = Ok s' ->
  Serializer._offset s' = U64.add (Serializer._offset s) (len (List.concat chunks))
                          \/ (chunks = [] /\ s' = s).
Proof.
  revert s. induction chunks as [| c cs IH]; intros s; simpl.
  - intros H. inversion H. right. split; reflexivity.
  - intros H. apply bind_Ok in H. destruct H as (s1 & Hw & Hrest).
    apply write_advances_offset in Hw. destruct Hw as [Hw _].
    unfold Serializer.get_offset in Hw.
    left. rewrite len_app.
    destruct (IH _ Hrest) as [Ho | [-> ->]].
    + rewrite Ho, Hw. apply add_assoc.
    + rewrite Hw. simpl. unfold len at 2. simpl. rewrite Z.add_0_r. reflexivity.
Qed.

Section ZeroPadding.

Variable _num_zeroes : Z.
Hypothesis _num_zeroes_pos : 0 < _num_zeroes.

Lemma len_zeroes : len (Serializer._zeroes _num_zeroes) = _num_zeroes.
Proof. unfold Serializer._zeroes. rewrite len_repeat. lia. Qed.

Lemma zeroes_zero (n : Z) :
  Forall (fun b => b = x00) (firstn (Z.to_nat n) (Serializer._zeroes _num_zeroes)).
Proof.
  apply Forall_forall. intros b Hin. apply in_firstn in Hin.
  unfold Serializer._zeroes in Hin. apply repeat_spec in Hin. exact Hin.
Qed.

(** The loop writes whole zero chunks and leaves between 1 and
    [_num_zeroes] bytes of padding outstanding. *)
Lemma write_zero_chunks_spec (fuel : nat) :
  forall (s s' : Serializer.t) (padding padding' : Z),
    U64.fits padding -> 0 < padding ->
    Serializer.write_zero_chunks _num_zeroes fuel s padding = Ok (s', padding') ->
    exists chunks,
      write_chunks s chunks = Ok s'
      /\ Forall (fun b => b = x00) (List.concat chunks)
      /\ padding' = padding - len (List.concat chunks)
      /\ 0 < padding' <= _num_zeroes.
Proof.
  induction fuel as [| fuel IH]; intros s s' padding padding' Hfit Hpos; simpl.
  - destruct (Z.gtb_spec padding _num_zeroes) as [Hgt | Hle]; [discriminate |].
    intros H. inversion H; subst. exists []. simpl.
    repeat split; auto; unfold len; simpl; lia.
  - destruct (Z.gtb_spec padding _num_zeroes) as [Hgt | Hle].
    + intros H. apply bind_Ok in H. destruct H as (s1 & Hw & Hrest).
      assert (Hsub : U64.sub padding _num_zeroes = padding - _num_zeroes).
      { apply sub_small. unfold U64.fits in *. lia. }
      rewrite Hsub in Hrest.
      apply IH in Hrest; [| unfold U64.fits in *; lia | lia].
      destruct Hrest as (chunks & Hc & Hz & Hp & Hb).
      exists (Serializer._zeroes _num_zeroes :: chunks). simpl.
      rewrite len_zeroes, Hw. simpl. rewrite len_app, len_zeroes.
      repeat split; auto; try lia.
      apply Forall_app. split; [| exact Hz].
      apply Forall_forall. intros b Hin. apply repeat_spec in Hin. exact Hin.
    + intros H. inversion H; subst. exists []. simpl.
      repeat split; auto; unfold len; simpl; lia.
Qed.

(** The loop needs at most [padding] rounds. *)
Lemma write_zero_chunks_fuel (fuel : nat) :
  forall (s : Serializer.t) (padding : Z),
    padding <= Z.of_nat fuel ->
    Serializer.write_zero_chunks _num_zeroes fuel s padding <> OutOfFuel.
Proof.
  induction fuel as [| fuel IH]; intros s padding Hle; simpl.
  - destruct (Z.gtb_spec padding _num_zeroes); [lia | discriminate].
  - destruct (Z.gtb_spec padding _num_zeroes) as [Hgt | _]; [| discriminate].
    destruct (Serializer.write s _ _num_zeroes) as [s1 | e | |] eqn:Hw;
      simpl; try discriminate.
    + apply IH. unfold U64.sub, U64.wrap.
      pose proof (Z.mod_le (padding - _num_zeroes) U64.modulus) as Hm.
      pose proof modulus_pos. lia.
    + exfalso. unfold Serializer.write in Hw.
      destruct (Serializer._file s); [| discriminate].
      destruct (len _ <? _num_zeroes); [discriminate |].
      destruct (fwrite _ _). destruct (negb _); discriminate.
Qed.

End ZeroPadding.

Lemma next_multiple (o a : Z) :
  0 < a -> (o + (a - o mod a)) mod a = 0.
Proof.
  intros Ha.
  rewrite (Z.div_mod o a) at 1 by lia.
  replace (a * (o / a) + o mod a + (a - o mod a)) with ((o / a + 1) * a) by ring.
  apply Z_mod_mult.
Qed.

(** The padded offset is a multiple of the alignment when the alignment
    divides [2^64] or the padded offset does not wrap. *)
Lemma padded_offset_aligned (o a : Z) :
  0 < a -> U64.fits o ->
  (a | U64.modulus) \/ o + a <= U64.modulus ->
  U64.add o (a - o mod a) mod a = 0.
Proof.
  intros Ha Ho [Hdiv | Hroom]; unfold U64.add, U64.wrap.
  - rewrite Z.mod_mod_divide by exact Hdiv. apply next_multiple. exact Ha.
  - pose proof (Z.mod_pos_bound o a Ha) as Hm.
    destruct (Z.eq_dec (o + (a - o mod a)) U64.modulus) as [E | E].
    + rewrite E, Z_mod_same_full. reflexivity.
    + rewrite (Z.mod_small (o + (a - o mod a)) U64.modulus);
        [apply next_multiple; exact Ha |].
      unfold U64.fits in Ho. lia.
Qed.

(** C6.  A successful [write_aligned(data, size, alignment)] is a run of
    [write] calls whose bytes are all zero, followed by the [write] of the
    value.  The zero bytes number [(alignment - _offset % alignment) %
    alignment], which is at most [alignment - 1], and the offset at which
    the value begins is a multiple of [alignment] (for an alignment that
    divides [2^64], or an offset that does not wrap). *)
Theorem write_aligned_layout
  (_num_zeroes : Z) (fuel : nat) (s s' : Serializer.t)
  (data : list byte) (size alignment : Z)
  (Hzeroes : 0 < _num_zeroes)
  (Hoffset : U64.fits (Serializer._offset s))
  (Halign : U64.fits alignment)
  (Hrange : (alignment | U64.modulus)
            \/ Serializer._offset s + alignment <= U64.modulus)
  (Hrun : Serializer.write_aligned _num_zeroes fuel s data size alignment = Ok s') :
  exists (chunks : list (list byte)) (s1 : Serializer.t),
    write_chunks s chunks = Ok s1
    /\ Serializer.write s1 data size = Ok s'
    /\ Forall (fun b => b = x00) (List.concat chunks)
    /\ len (List.concat chunks)
       = (alignment - Serializer._offset s mod alignment) mod alignment
    /\ len (List.concat chunks) <= alignment - 1
    /\ Serializer.get_offset s1
       = U64.add (Serializer._offset s) (len (List.concat chunks))
    /\ Serializer.get_offset s1 mod alignment = 0.
Proof.
  unfold Serializer.write_aligned in Hrun.
  apply bind_Ok in Hrun. destruct Hrun as (s1 & Hpad & Hwrite).
  unfold Serializer.write_padding in Hpad.
  destruct (Z.eqb_spec alignment 0) as [E0 | E0]; [discriminate |].
  assert (Ha : 0 < alignment) by (unfold U64.fits in Halign; lia).
  pose proof (Z.mod_pos_bound (Serializer._offset s) alignment Ha) as Hmod.
  pose proof (padded_offset_aligned Ha Hoffset Hrange) as Haligned.
  destruct (Z.eqb_spec (Serializer._offset s mod alignment) 0) as [Em | Em];
    cbn [negb] in Hpad.
  - inversion Hpad; subst s1. exists [], s. simpl.
    rewrite Em, Z.sub_0_r, Z_mod_same_full.
    unfold len; simpl. unfold Serializer.get_offset.
    rewrite (add_0_r Hoffset).
    repeat split; auto; lia.
  - assert (Hsub : U64.sub alignment (Serializer._offset s mod alignment)
                   = alignment - Serializer._offset s mod alignment).
    { apply sub_small. unfold U64.fits in *. lia. }
    rewrite Hsub in Hpad.
    apply bind_Ok in Hpad. destruct Hpad as ([s2 p] & Hloop & Hlast).
    apply (write_zero_chunks_spec Hzeroes) in Hloop;
      [| unfold U64.fits in *; lia | lia].
    destruct Hloop as (chunks & Hc & Hz & Hp & Hb).
    rewrite write_prefix in Hlast by (rewrite (len_zeroes Hzeroes); lia).
    set (last := firstn (Z.to_nat p) (Serializer._zeroes _num_zeroes)) in *.
    assert (Hlen : len last = p).
    { apply len_firstn. rewrite (len_zeroes Hzeroes). lia. }
    assert (Htotal : len (List.concat (chunks ++ [last]))
                     = alignment - Serializer._offset s mod alignment).
    { rewrite concat_app, len_app. simpl. rewrite app_nil_r. lia. }
    assert (Hrun : write_chunks s (chunks ++ [last]) = Ok s1).
    { rewrite write_chunks_app, Hc. simpl. rewrite Hlast. reflexivity. }
    exists (chunks ++ [last]), s1.
    assert (Hoff : Serializer.get_offset s1
                   = U64.add (Serializer._offset s)
                       (len (List.concat (chunks ++ [last])))).
    { destruct (write_chunks_offset _ _ Hrun) as [H | [H _]]; [exact H |].
      destruct chunks; discriminate. }
    rewrite Hoff, Htotal.
    repeat split; auto; try lia.
    + rewrite concat_app. apply Forall_app. split; [exact Hz |].
      simpl. rewrite app_nil_r. apply zeroes_zero.
    + symmetry. apply Z.mod_small. lia.
Qed.

Lemma write_aligned_layout_witness :
  exists (chunks : list (list byte)) (s1 : Serializer.t),
    write_chunks writer_at4 chunks = Ok s1
    /\ Serializer.write s1 [xaa] 1 = Ok writer_at9
    /\ Forall (fun b => b = x00) (List.concat chunks)
    /\ len (List.concat chunks) = (8 - 4 mod 8) mod 8
    /\ len (List.concat chunks) <= 8 - 1
    /\ Serializer.get_offset s1 = U64.add 4 (len (List.concat chunks))
    /\ Serializer.get_offset s1 mod 8 = 0.
Proof.
  apply (@write_aligned_layout 16 1 writer_at4 writer_at9 [xaa] 1 8).
  - lia.
  - vm_compute. split; congruence.
  - vm_compute. split; congruence.
  - left. exists (2 ^ 61). reflexivity.
  - vm_compute. reflexivity.
Defined.

(** ** Round trip *)

Lemma firstn_add {A : Type} (a b : nat) (l : list A) :
  firstn (a + b) l = firstn a l ++ firstn b (skipn a l).
Proof.
  revert l. induction a as [| a IH]; intros l; simpl; [reflexivity |].
  destruct l as [| x l]; simpl.
  - rewrite firstn_nil. reflexivity.
  - rewrite IH. reflexivity.
Qed.

Lemma len_skipn {A : Type} (n : Z) (l : list A) :
  0 <= n -> len (skipn (Z.to_nat n) l) = Z.max 0 (len l - n).
Proof. unfold len. intros H. rewrite length_skipn. lia. Qed.

Lemma len_firstn_min {A : Type} (n : Z) (l : list A) :
  0 <= n -> len (firstn (Z.to_nat n) l) = Z.min n (len l).
Proof. unfold len. intros H. rewrite length_firstn. lia. Qed.

(** Reading back what [splice] put in place. *)
Lemma splice_read (old new : list byte) (at_ : nat) :
  firstn (List.length new) (skipn at_ (splice old at_ new)) = new.
Proof.
  unfold splice.
  rewrite app_assoc.
  rewrite skipn_app.
  assert (Hlen : List.length (firstn at_ old ++ repeat x00 (at_ - List.length old))
                 = at_).
  { rewrite length_app, length_firstn, repeat_length. lia. }
  rewrite Hlen, Nat.sub_diag. simpl.
  rewrite skipn_all2 by lia. simpl.
  rewrite firstn_app, Nat.sub_diag, firstn_all. simpl.
  apply app_nil_r.
Qed.

(** Without a bad byte, [fread] delivers the available bytes, raises the
    end-of-file indicator when they are fewer than asked for, and leaves the
    error indicator alone. *)
Lemma fread_clean (f : FILE) (size : Z) :
  bad_byte (faults f) = None ->
  fread f size
  = (available f size,
     mkFILE (bytes f) (pos f + len (available f size))
            (eof f || (len (available f size) <? size)) (error f || false)
            (vbuf f) (S (nread f)) (nseek f) (nwrite f) (faults f)).
Proof.
  intros H. unfold fread. rewrite H. reflexivity.
Qed.

Lemma len_available (f : FILE) (size : Z) :
  0 <= size -> 0 <= pos f ->
  len (available f size) = Z.min size (Z.max 0 (len (bytes f) - pos f)).
Proof.
  intros Hs Hp. unfold available.
  rewrite len_firstn_min by exact Hs. rewrite len_skipn by exact Hp.
  reflexivity.
Qed.

(** What a successful [write] leaves in the stream at the position it
    started from. *)
Lemma write_stores (s s' : Serializer.t) (f f' : FILE) (data : list byte) :
  Serializer._file s = Some f -> 0 <= pos f ->
  Serializer.write s data (len data) = Ok s' ->
  Serializer._file s' = Some f' ->
  firstn (List.length data) (skipn (Z.to_nat (pos f)) (bytes f')) = data.
Proof.
  intros Hf Hpos Hw Hf'. unfold Serializer.write in Hw. rewrite Hf in Hw.
  rewrite Z.ltb_irrefl in Hw.
  replace (Z.to_nat (len data)) with (List.length data) in Hw
    by (unfold len; lia).
  rewrite firstn_all in Hw.
  unfold fwrite in Hw.
  set (accepted := firstn _ data) in Hw.
  destruct (Z.eqb_spec (len accepted) (len data)) as [E | E];
    cbn [negb] in Hw; [| discriminate].
  inversion Hw; subst s'; clear Hw. simpl in Hf'. inversion Hf'; subst f'.
  simpl.
  assert (Hacc : accepted = data).
  { subst accepted. apply firstn_all2.
    unfold len in *. rewrite length_firstn in E. lia. }
  rewrite Hacc.
  destruct (List.length data =? 0)%nat eqn:E0.
  - apply Nat.eqb_eq in E0. destruct data; [reflexivity | discriminate].
  - apply splice_read.
Qed.

Lemma read_is_read_rest (fuel : nat) (d : Deserializer.t) (size : Z) :
  Deserializer.read fuel d size = read_rest fuel d [] size.
Proof. reflexivity. Qed.

Lemma read_loop_exit (fuel : nat) (d : Deserializer.t) (dest : list byte)
  (size : Z) :
  (U64.add (Deserializer._read_buffer_offset d) size
   >? Deserializer._active_page_size d) = false ->
  Deserializer.read_loop fuel d dest size = Ok (d, dest, size).
Proof. intros H. destruct fuel; simpl; rewrite H; reflexivity. Qed.





Lemma len_store (buf got : list byte) :
  len got <= len buf -> len (Deserializer.store buf got) = len buf.
Proof.
  unfold Deserializer.store, len. intros H.
  rewrite length_app, length_skipn. lia.
Qed.





(** ** The cursor bound after construction *)

Lemma read_loop_leaves_fit (fuel : nat) :
  forall (d d' : Deserializer.t) (dest dest' : list byte) (size size' : Z),
    Deserializer.read_loop fuel d dest size = Ok (d', dest', size') ->
    (U64.add (Deserializer._read_buffer_offset d') size'
     >? Deserializer._active_page_size d') = false.
Proof.
  induction fuel as [| fuel IH]; intros d d' dest dest' size size'; simpl;
    destruct (U64.add (Deserializer._read_buffer_offset d) size
              >? Deserializer._active_page_size d) eqn:Hcond;
    try discriminate;
    try (intros H; inversion H; subst; exact Hcond).
  intros H. apply bind_Ok in H. destruct H as (chunk & _ & H).
  apply bind_Ok in H. destruct H as ([d1 n] & _ & H).
  destruct ((n <? Deserializer._active_page_size d1) && _); [discriminate |].
  apply IH in H. exact H.
Qed.

(** Every operation other than the constructor leaves the cursor inside the
    active page when it succeeds: [set_offset], a refill and [read]
    establish the bound, and [set_page_size] keeps it. *)
Lemma set_offset_cursor_in_page (d d' : Deserializer.t) (new_offset : Z) :
  reader_typed d -> U64.fits new_offset ->
  Deserializer.set_offset d new_offset = Ok d' -> cursor_in_page d'.
Proof.
  intros (_ & Ha & Hb & _ & _) Hn. unfold Deserializer.set_offset.
  destruct (Z.leb_spec (Deserializer._file_offset_page_begin d) new_offset)
    as [Hlo | Hlo]; cbn [andb].
  - destruct (Z.ltb_spec new_offset
                (U64.add (Deserializer._file_offset_page_begin d)
                         (Deserializer._active_page_size d))) as [Hhi | Hhi].
    + intros H. inversion H; subst d'. unfold cursor_in_page. simpl.
      assert (Hle : U64.add (Deserializer._file_offset_page_begin d)
                      (Deserializer._active_page_size d)
                    <= Deserializer._file_offset_page_begin d
                       + Deserializer._active_page_size d).
      { unfold U64.add, U64.wrap. apply Z.mod_le; [| exact modulus_pos].
        unfold U64.fits in *. lia. }
      rewrite sub_small; unfold U64.fits in *; lia.
    + destruct (Deserializer._file d) as [f |]; [| discriminate].
      destruct (fseek f new_offset) as [ret f'].
      destruct (negb (ret =? 0)); [discriminate |].
      intros H. inversion H; subst d'. unfold cursor_in_page, U64.fits in *.
      simpl. lia.
  - destruct (Deserializer._file d) as [f |]; [| discriminate].
    destruct (fseek f new_offset) as [ret f'].
    destruct (negb (ret =? 0)); [discriminate |].
    intros H. inversion H; subst d'. unfold cursor_in_page, U64.fits in *.
    simpl. lia.
Qed.

Lemma read_page_cursor_in_page (d d' : Deserializer.t) (n : Z) :
  0 <= Deserializer._target_page_size d ->
  Deserializer._read_page d = Ok (d', n) -> cursor_in_page d'.
Proof.
  intros Ht H. apply read_page_begin in H.
  destruct H as (_ & Hc & Ha & _). unfold cursor_in_page.
  rewrite Hc, Ha. lia.
Qed.

Lemma read_cursor_in_page (fuel : nat) (d d' : Deserializer.t) (size : Z)
  (out : list byte) :
  Deserializer.read fuel d size = Ok (d', out) -> cursor_in_page d'.
Proof.
  unfold Deserializer.read. intros H.
  apply bind_Ok in H. destruct H as ([[d1 dest] size'] & Hloop & H).
  apply bind_Ok in H. destruct H as (chunk & _ & H).
  inversion H; subst d' out. apply read_loop_leaves_fit in Hloop.
  unfold cursor_in_page. simpl.
  pose proof (wrap_fits (Deserializer._read_buffer_offset d1 + size')) as Hw.
  unfold U64.add in *. unfold U64.fits in Hw.
  destruct (Z.gtb_spec (U64.wrap (Deserializer._read_buffer_offset d1 + size'))
                       (Deserializer._active_page_size d1)); [discriminate |].
  lia.
Qed.

Lemma set_page_size_cursor_in_page (d d' : Deserializer.t) (new_page_size : Z) :
  cursor_in_page d ->
  Deserializer.set_page_size d new_page_size = Ok d' -> cursor_in_page d'.
Proof.
  unfold Deserializer.set_page_size. intros Hd.
  destruct (new_page_size =? 0); [discriminate |].
  intros H. inversion H; subst d'. exact Hd.
Qed.

(** ** Reads that start from a coherent page *)

Lemma fread_len (f : FILE) (size : Z) :
  0 <= size -> len (fst (fread f size)) <= size.
Proof.
  intros Hs. unfold fread. cbn [fst].
  assert (Hw : len (available f size) <= size).
  { unfold available. rewrite len_firstn_min by exact Hs. lia. }
  assert (Hcut : forall k, len (firstn k (available f size)) <= size).
  { intros k. unfold len in *. rewrite length_firstn. lia. }
  destruct (bad_byte (faults f)) as [q |]; [| exact Hw].
  destruct ((pos f <=? q) && _); [apply Hcut | exact Hw].
Qed.

Lemma read_page_count (d d' : Deserializer.t) (n : Z) :
  0 <= Deserializer._target_page_size d ->
  Deserializer._read_page d = Ok (d', n) ->
  0 <= n <= Deserializer._target_page_size d.
Proof.
  intros Ht. unfold Deserializer._read_page.
  destruct (Deserializer._file d) as [f0 |]; [| discriminate].
  destruct (Z.eqb_spec (Deserializer._active_page_size d)
                       (Deserializer._target_page_size d)) as [E | E];
    cbv beta iota zeta delta [negb];
    match goal with
    | |- context [fread ?f ?z] =>
        pose proof (@fread_len f z) as Hlen;
        destruct (fread f z) as [got f2]
    end;
    cbn [fst] in Hlen; pose proof (len_nonneg got) as Hgot;
    destruct (len got =? _); try destruct (ferror f2 || _);
    intros H; inversion H; subst; lia.
Qed.

Lemma add_assoc_r (b c s : Z) :
  U64.add b (U64.add c s) = U64.add (U64.add b c) s.
Proof.
  unfold U64.add, U64.wrap.
  rewrite Zplus_mod_idemp_r, Zplus_mod_idemp_l. f_equal. ring.
Qed.

Lemma offset_step (b a c size : Z) :
  U64.add (U64.add (U64.add b a) 0) (U64.sub size (U64.sub a c))
  = U64.add (U64.add b c) size.
Proof.
  unfold U64.add, U64.sub, U64.wrap.
  rewrite Z.add_0_r, Zmod_mod.
  rewrite Zplus_mod_idemp_l, Zplus_mod_idemp_r, Zplus_mod_idemp_l.
  replace (b + a + (size - (a - c) mod U64.modulus))
    with (b + a + size - (a - c) mod U64.modulus) by ring.
  rewrite Zminus_mod_idemp_r. f_equal. ring.
Qed.

(** Through the loop of [read], the logical offset plus the outstanding
    size stays what it was, provided the page the loop starts from ends
    where [_file_offset_page_end] says. *)
Lemma read_loop_offset (fuel : nat) :
  forall (d d' : Deserializer.t) (dest dest' : list byte) (size size' : Z),
    0 <= Deserializer._target_page_size d ->
    ((U64.add (Deserializer._read_buffer_offset d) size
      >? Deserializer._active_page_size d) = true ->
     Deserializer._file_offset_page_end d
     = U64.add (Deserializer._file_offset_page_begin d)
               (Deserializer._active_page_size d)) ->
    Deserializer.read_loop fuel d dest size = Ok (d', dest', size') ->
    U64.add (Deserializer.get_offset d') size'
    = U64.add (Deserializer.get_offset d) size.
Proof.
  induction fuel as [| fuel IH]; intros d d' dest dest' size size' Ht Hcoh;
    simpl;
    destruct (U64.add (Deserializer._read_buffer_offset d) size
              >? Deserializer._active_page_size d) eqn:Hcond;
    try discriminate;
    try (intros H; inversion H; subst; reflexivity).
  specialize (Hcoh eq_refl).
  intros H. apply bind_Ok in H. destruct H as (chunk & _ & H).
  apply bind_Ok in H. destruct H as ([d1 n] & Hpage & H).
  set (size1 := U64.sub size (U64.sub (Deserializer._active_page_size d)
                                (Deserializer._read_buffer_offset d))) in *.
  destruct ((n <? Deserializer._active_page_size d1) && (n <? size1))
    eqn:Hcheck; [discriminate |].
  pose proof (read_page_count d Ht Hpage) as Hn.
  apply read_page_begin in Hpage.
  destruct Hpage as (Hb1 & Hc1 & Ha1 & Ht1 & He1).
  apply IH in H.
  - rewrite H. unfold Deserializer.get_offset. rewrite Hb1, Hc1, Hcoh.
    apply offset_step.
  - rewrite Ht1. exact Ht.
  - rewrite Hc1, Hb1, He1, Ha1. intros Hnext.
    assert (Hs1 : U64.add 0 size1 = size1).
    { unfold U64.add. rewrite Z.add_0_l. apply wrap_small.
      unfold size1. apply wrap_fits. }
    rewrite Hs1 in Hnext. rewrite Ha1 in Hcheck.
    destruct (Z.gtb_spec size1 (Deserializer._target_page_size d));
      [| discriminate].
    destruct (Z.ltb_spec n (Deserializer._target_page_size d));
      destruct (Z.ltb_spec n size1); try discriminate; try lia.
    f_equal. lia.
Qed.

(** A successful [read] of [size] bytes advances [get_offset] by [size] (in
    64-bit arithmetic) when it is served from the buffered page, or when
    the buffered page ends where [_file_offset_page_end] says. *)
Lemma read_advances_offset (fuel : nat) (d d' : Deserializer.t) (size : Z)
  (out : list byte) :
  0 <= Deserializer._target_page_size d ->
  ((U64.add (Deserializer._read_buffer_offset d) size
    >? Deserializer._active_page_size d) = true ->
   Deserializer._file_offset_page_end d
   = U64.add (Deserializer._file_offset_page_begin d)
             (Deserializer._active_page_size d)) ->
  Deserializer.read fuel d size = Ok (d', out) ->
  Deserializer.get_offset d' = U64.add (Deserializer.get_offset d) size.
Proof.
  intros Ht Hcoh H. unfold Deserializer.read in H.
  apply bind_Ok in H. destruct H as ([[d1 dest] size'] & Hloop & H).
  apply bind_Ok in H. destruct H as (chunk & _ & H).
  inversion H; subst d' out.
  rewrite <- (read_loop_offset _ _ _ _ Ht Hcoh Hloop).
  unfold Deserializer.get_offset. simpl. apply add_assoc_r.
Qed.

(** ** The padding step of [read_aligned] *)

(** What [read_aligned] does before its [read]: with the padding computed
    from [_read_buffer_offset], it refills once when the padded cursor
    would pass the active page, and otherwise advances the cursor by the
    padding. *)
Lemma skip_padding_effect (d : Deserializer.t) (alignment : Z) :
  0 < alignment -> U64.fits alignment ->
  let cursor := Deserializer._read_buffer_offset d in
  let pad := (alignment - cursor mod alignment) mod alignment in
  Deserializer.skip_padding d alignment
  = if (pad =? 0) then Ok d
    else if U64.add cursor pad >? Deserializer._active_page_size d
         then '(d', _) <- Deserializer._read_page d ;; Ok d'
         else Ok (Deserializer.with_read_buffer_offset d (U64.add cursor pad)).
Proof.
  intros Ha Hfit cursor pad. unfold Deserializer.skip_padding.
  fold cursor.
  destruct (Z.eqb_spec alignment 0) as [E | _]; [lia |].
  pose proof (Z.mod_pos_bound cursor alignment Ha) as Hm.
  destruct (Z.eqb_spec (cursor mod alignment) 0) as [E | E]; cbn [negb].
  - unfold pad. rewrite E, Z.sub_0_r, Z_mod_same_full. reflexivity.
  - assert (Hpad : pad = alignment - cursor mod alignment).
    { unfold pad. apply Z.mod_small. lia. }
    assert (Hsub : U64.sub alignment (cursor mod alignment) = pad).
    { rewrite Hpad. apply sub_small. unfold U64.fits in *. lia. }
    rewrite Hsub.
    destruct (Z.eqb_spec pad 0) as [E0 | _]; [lia | reflexivity].
Qed.

(** * Further properties of the writer *)

Lemma write_effect (s : Serializer.t) (f : FILE) (data : list byte) (size : Z) :
  Serializer._file s = Some f ->
  0 <= size <= len data -> 0 <= pos f ->
  pos f + size <= capacity (faults f) ->
  exists f',
    Serializer.write s data size
    = Ok (Serializer.mk (Some f') (U64.add (Serializer._offset s) size)
            (Serializer._filename s))
    /\ pos f' = pos f + size /\ faults f' = faults f.
Proof.
  intros Hf Hsize Hpos Hroom. unfold Serializer.write. rewrite Hf.
  replace (len data <? size) with false by (symmetry; apply Z.ltb_ge; lia).
  unfold fwrite.
  set (chunk := firstn (Z.to_nat size) data).
  assert (Hchunk : len chunk = size) by (apply len_firstn; exact Hsize).
  set (accepted := firstn _ chunk).
  assert (Hacc : len accepted = size).
  { unfold accepted. rewrite len_firstn_min by lia. lia. }
  eexists. rewrite Hacc, Z.eqb_refl. cbn [negb].
  repeat split; reflexivity.
Qed.

Lemma write_result (s s' : Serializer.t) (f : FILE) (data : list byte)
  (size : Z) :
  Serializer._file s = Some f ->
  Serializer.write s data size = Ok s' ->
  exists f',
    Serializer._file s' = Some f' /\ pos f' = pos f + size
    /\ faults f' = faults f
    /\ Serializer._offset s' = U64.add (Serializer._offset s) size
    /\ Serializer._filename s' = Serializer._filename s.
Proof.
  intros Hf. unfold Serializer.write. rewrite Hf.
  destruct (len data <? size); [discriminate |].
  unfold fwrite.
  set (accepted := firstn _ (firstn (Z.to_nat size) data)).
  destruct (Z.eqb_spec (len accepted) size) as [E | E]; cbn [negb];
    [| discriminate].
  intros H. inversion H; subst s'. eexists. simpl.
  rewrite E. repeat split; reflexivity.
Qed.

Section ZeroPaddingSynced.

Variable _num_zeroes : Z.
Hypothesis _num_zeroes_pos : 0 < _num_zeroes.

(** The zero-chunk loop keeps the offset on the stream position and moves
    both by the padding it has written. *)
Lemma write_zero_chunks_synced (fuel : nat) :
  forall (s s' : Serializer.t) (padding padding' : Z),
    writer_synced s -> 0 < padding ->
    Serializer._offset s + padding < U64.modulus ->
    0 <= Serializer._offset s ->
    Serializer.write_zero_chunks _num_zeroes fuel s padding = Ok (s', padding') ->
    writer_synced s'
    /\ Serializer._offset s' + padding' = Serializer._offset s + padding
    /\ 0 < padding' <= _num_zeroes
    /\ Serializer._filename s' = Serializer._filename s.
Proof.
  induction fuel as [| fuel IH]; intros s s' padding padding' Hs Hp Hfit Ho;
    simpl; destruct (Z.gtb_spec padding _num_zeroes) as [Hgt | Hle];
    try discriminate;
    try (intros H; inversion H; subst; repeat split; auto; lia).
  intros H. apply bind_Ok in H. destruct H as (s1 & Hw & Hrest).
  destruct Hs as (f & Hf & Hpos).
  destruct (@write_result s s1 f _ _ Hf Hw) as (f1 & Hf1 & Hpos1 & _ & Ho1 & Hn1).
  rewrite add_small in Ho1 by (unfold U64.fits; lia).
  rewrite sub_small in Hrest by (unfold U64.fits; lia).
  apply IH in Hrest; try lia.
  - destruct Hrest as (Hs' & Hsum & Hb & Hn). repeat split; auto; try lia.
    congruence.
  - exists f1. split; [exact Hf1 | lia].
Qed.

(** With room on the device and fuel for its rounds, the zero-chunk loop
    returns. *)
Lemma write_zero_chunks_succeeds (fuel : nat) :
  forall (s : Serializer.t) (f : FILE) (padding : Z),
    Serializer._file s = Some f -> 0 <= pos f -> 0 < padding ->
    U64.fits padding ->
    pos f + padding <= capacity (faults f) ->
    padding <= Z.of_nat fuel ->
    exists s' f' padding',
      Serializer.write_zero_chunks _num_zeroes fuel s padding
      = Ok (s', padding')
      /\ Serializer._file s' = Some f'
      /\ pos f' + padding' = pos f + padding
      /\ faults f' = faults f
      /\ 0 < padding' <= _num_zeroes
      /\ pos f <= pos f'.
Proof.
  induction fuel as [| fuel IH]; intros s f padding Hf Hpos Hp Hfit Hroom Hfuel;
    simpl; destruct (Z.gtb_spec padding _num_zeroes) as [Hgt | Hle];
    try lia;
    try (exists s, f, padding; repeat split; auto; lia).
  destruct (@write_effect s f (Serializer._zeroes _num_zeroes) _num_zeroes Hf)
    as (f1 & Hw & Hpos1 & Hfl1); try lia.
  { rewrite (len_zeroes _num_zeroes_pos). lia. }
  rewrite Hw. simpl.
  rewrite sub_small by (unfold U64.fits in *; lia).
  edestruct (IH (Serializer.mk (Some f1)
                   (U64.add (Serializer._offset s) _num_zeroes)
                   (Serializer._filename s)) f1 (padding - _num_zeroes))
    as (s' & f' & p' & Hrun & Hf' & Hsum & Hfl & Hb & Hmono);
    try reflexivity; try lia.
  - unfold U64.fits in *. lia.
  - rewrite Hfl1. lia.
  - exists s', f', p'. repeat split; auto; try lia. congruence.
Qed.

End ZeroPaddingSynced.

Lemma round_up_spec (o a : Z) :
  0 < a -> round_up o a mod a = 0 /\ o <= round_up o a < o + a.
Proof.
  intros Ha. unfold round_up.
  pose proof (Z.mod_pos_bound o a Ha) as Hm.
  destruct (Z.eqb_spec (o mod a) 0) as [E | E].
  - split; [exact E | lia].
  - split; [apply next_multiple; exact Ha | lia].
Qed.

Lemma write_padding_synced (_num_zeroes : Z) (fuel : nat)
  (s s' : Serializer.t) (alignment : Z) :
  0 < _num_zeroes -> writer_synced s ->
  U64.fits (Serializer._offset s) -> U64.fits alignment ->
  Serializer._offset s + alignment < U64.modulus ->
  Serializer.write_padding _num_zeroes fuel s alignment = Ok s' ->
  writer_synced s'
  /\ Serializer._offset s' = round_up (Serializer._offset s) alignment.
Proof.
  intros Hnz Hs Ho Ha Hfit. unfold Serializer.write_padding, round_up.
  destruct (Z.eqb_spec alignment 0) as [E0 | E0]; [discriminate |].
  assert (Hpos : 0 < alignment) by (unfold U64.fits in Ha; lia).
  pose proof (Z.mod_pos_bound (Serializer._offset s) alignment Hpos) as Hm.
  destruct (Z.eqb_spec (Serializer._offset s mod alignment) 0) as [E | E];
    cbn [negb].
  - intros H. inversion H; subst s'. split; [exact Hs | reflexivity].
  - rewrite sub_small by (unfold U64.fits in *; lia).
    intros H. apply bind_Ok in H. destruct H as ([s1 p] & Hloop & Hlast).
    apply (write_zero_chunks_synced Hnz) in Hloop;
      try assumption; try (unfold U64.fits in *; lia).
    destruct Hloop as ((f1 & Hf1 & Hpos1) & Hsum & Hb & _).
    destruct (@write_result s1 s' f1 _ _ Hf1 Hlast)
      as (f2 & Hf2 & Hpos2 & _ & Ho2 & _).
    rewrite add_small in Ho2 by (unfold U64.fits in *; lia).
    split; [exists f2; split; [exact Hf2 | lia] | lia].
Qed.

(** X1.  The writer keeps its offset on the position of its stream: from a
    state where the two agree, a successful [set_offset], [write] or
    [write_aligned] leaves them agreeing, with the offset at the sought
    position, advanced by the size written, or at the next multiple of the
    alignment plus the size written. *)
Theorem writer_offset_follows_stream (s : Serializer.t)
  (Hs : writer_synced s) (Ho : U64.fits (Serializer._offset s)) :
  (forall new_offset s',
      Serializer.set_offset s new_offset = Ok s' ->
      writer_synced s' /\ Serializer.get_offset s' = new_offset)
  /\ (forall data size s',
         0 <= size -> Serializer._offset s + size < U64.modulus ->
         Serializer.write s data size = Ok s' ->
         writer_synced s'
         /\ Serializer.get_offset s' = Serializer._offset s + size)
  /\ (forall _num_zeroes fuel data size alignment s',
         0 < _num_zeroes -> 0 <= size -> U64.fits alignment ->
         Serializer._offset s + alignment + size < U64.modulus ->
         Serializer.write_aligned _num_zeroes fuel s data size alignment
         = Ok s' ->
         writer_synced s'
         /\ Serializer.get_offset s'
            = round_up (Serializer._offset s) alignment + size).
Proof.
  destruct Hs as (f & Hf & Hpos). split; [| split].
  - intros new_offset s' H. unfold Serializer.set_offset in H.
    rewrite Hf in H. unfold fseek in H.
    destruct (new_offset <=? seek_max (faults f)); cbn [negb Z.eqb] in H;
      [| discriminate].
    inversion H. split; [eexists; split; reflexivity | reflexivity].
  - intros data size s' Hsize Hfit H.
    destruct (@write_result s s' f _ _ Hf H) as (f' & Hf' & Hpos' & _ & Ho' & _).
    rewrite add_small in Ho' by (unfold U64.fits in *; lia).
    split; [exists f'; split; [exact Hf' | lia] | exact Ho'].
  - intros _num_zeroes fuel data size alignment s' Hnz Hsize Ha Hfit H.
    unfold Serializer.write_aligned in H. apply bind_Ok in H.
    destruct H as (s1 & Hpad & Hw).
    assert (Hapos : 0 < alignment).
    { unfold Serializer.write_padding in Hpad.
      destruct (Z.eqb_spec alignment 0); [discriminate |].
      unfold U64.fits in *. lia. }
    apply write_padding_synced in Hpad; try assumption;
      try (exists f; split; assumption); try (unfold U64.fits in *; lia).
    destruct Hpad as ((f1 & Hf1 & Hpos1) & Ho1).
    pose proof (@round_up_spec (Serializer._offset s) alignment Hapos) as Hr.
    destruct (@write_result s1 s' f1 _ _ Hf1 Hw) as (f' & Hf' & Hpos' & _ & Ho' & _).
    rewrite add_small in Ho' by (unfold U64.fits in *; lia).
    unfold Serializer.get_offset.
    split; [exists f'; split; [exact Hf' | lia] | lia].
Qed.

Lemma writer_offset_follows_stream_witness :
  writer_synced writer_at9
  /\ Serializer.get_offset writer_at9 = round_up 4 8 + 1.
Proof.
  assert (Hs : writer_synced writer_at4) by (eexists; split; reflexivity).
  assert (Ho : U64.fits (Serializer._offset writer_at4))
    by (vm_compute; split; congruence).
  destruct (@writer_offset_follows_stream writer_at4 Hs Ho) as (_ & _ & H).
  apply (H 16 1%nat [xaa] 1 8); try lia; try reflexivity;
    vm_compute; split; congruence.
Defined.

(** X2.  A successful [set_offset_aligned(new_offset, alignment)] leaves the
    writer and its stream at the least multiple of [alignment] that is not
    below [new_offset]: at [new_offset] itself when that is a multiple, and
    less than [alignment] above it otherwise. *)
Theorem set_offset_aligned_rounds_up
  (s s' : Serializer.t) (new_offset alignment : Z)
  (Hnew : U64.fits new_offset) (Ha : U64.fits alignment)
  (Hfit : new_offset + alignment <= U64.modulus)
  (Hrun : Serializer.set_offset_aligned s new_offset alignment = Ok s') :
  Serializer.get_offset s' = round_up new_offset alignment
  /\ Serializer.get_offset s' mod alignment = 0
  /\ new_offset <= Serializer.get_offset s' < new_offset + alignment
  /\ (new_offset mod alignment = 0 -> Serializer.get_offset s' = new_offset)
  /\ writer_synced s'.
Proof.
  unfold Serializer.set_offset_aligned in Hrun.
  destruct (Z.eqb_spec alignment 0) as [E0 | E0]; [discriminate |].
  assert (Hpos : 0 < alignment) by (unfold U64.fits in Ha; lia).
  pose proof (Z.mod_pos_bound new_offset alignment Hpos) as Hm.
  pose proof (@round_up_spec new_offset alignment Hpos) as (Hr1 & Hr2).
  assert (Htarget : (if negb (new_offset mod alignment =? 0)
                     then U64.add new_offset
                            (U64.sub alignment (new_offset mod alignment))
                     else new_offset) = round_up new_offset alignment).
  { unfold round_up.
    destruct (Z.eqb_spec (new_offset mod alignment) 0); cbn [negb];
      [reflexivity |].
    rewrite sub_small by (unfold U64.fits in *; lia).
    apply add_small. unfold U64.fits in *. lia. }
  rewrite Htarget in Hrun. unfold Serializer.set_offset in Hrun.
  destruct (Serializer._file s) as [f |]; [| discriminate].
  unfold fseek in Hrun.
  destruct (round_up new_offset alignment <=? seek_max (faults f));
    cbn [negb Z.eqb] in Hrun; [| discriminate].
  inversion Hrun; subst s'. unfold Serializer.get_offset. simpl.
  repeat split; try assumption; try lia.
  - intros E. unfold round_up. rewrite E. reflexivity.
  - eexists. split; reflexivity.
Qed.

Lemma set_offset_aligned_rounds_up_witness :
  Serializer.get_offset
    (Serializer.mk
       (Some (mkFILE [x01; x02; x03; x04] 8 false false None 0 1 1 no_faults))
       8 "out.bin") = round_up 5 8.
Proof.
  apply (@set_offset_aligned_rounds_up writer_at4
           (Serializer.mk
              (Some (mkFILE [x01; x02; x03; x04] 8 false false None 0 1 1
                       no_faults))
              8 "out.bin") 5 8);
    first [reflexivity | vm_compute; split; congruence | vm_compute; congruence].
Defined.

(** X3.  [write_aligned] returns: with one unit of fuel per byte of
    alignment and room on the device for the padding and the value, the
    call succeeds. *)
Theorem write_aligned_succeeds
  (_num_zeroes : Z) (fuel : nat) (s : Serializer.t) (f : FILE)
  (data : list byte) (size alignment : Z)
  (Hnz : 0 < _num_zeroes)
  (Hfile : Serializer._file s = Some f) (Hpos : 0 <= pos f)
  (Ho : U64.fits (Serializer._offset s))
  (Ha : 0 < alignment) (Hafit : U64.fits alignment)
  (Hsize : 0 <= size <= len data)
  (Hroom : pos f
           + (alignment - Serializer._offset s mod alignment) mod alignment
           + size <= capacity (faults f))
  (Hfuel : alignment <= Z.of_nat fuel) :
  exists s',
    Serializer.write_aligned _num_zeroes fuel s data size alignment = Ok s'.
Proof.
  unfold Serializer.write_aligned, Serializer.write_padding.
  destruct (Z.eqb_spec alignment 0) as [E0 | _]; [lia |].
  pose proof (Z.mod_pos_bound (Serializer._offset s) alignment Ha) as Hm.
  destruct (Z.eqb_spec (Serializer._offset s mod alignment) 0) as [E | E];
    cbn [negb bind].
  - rewrite E, Z.sub_0_r, Z_mod_same_full in Hroom.
    destruct (@write_effect s f data size Hfile Hsize Hpos) as (f' & Hw & _);
      [lia |].
    eexists. exact Hw.
  - rewrite (Z.mod_small (alignment - _) alignment) in Hroom by lia.
    rewrite sub_small by (unfold U64.fits in *; lia).
    destruct (@write_zero_chunks_succeeds _num_zeroes Hnz fuel s f
                (alignment - Serializer._offset s mod alignment))
      as (s1 & f1 & p & Hloop & Hf1 & Hsum & Hfl & Hb & Hmono);
      try assumption; try (unfold U64.fits in *; lia).
    rewrite Hloop. cbn [bind].
    destruct (@write_effect s1 f1 (Serializer._zeroes _num_zeroes) p Hf1)
      as (f2 & Hw2 & Hpos2 & Hfl2); try lia.
    { rewrite (len_zeroes Hnz). lia. }
    { rewrite Hfl. lia. }
    rewrite Hw2. cbn [bind].
    match goal with
    | |- context [Serializer.write ?s2 data size] =>
        destruct (@write_effect s2 f2 data size eq_refl Hsize) as (f3 & Hw3 & _);
          [lia | rewrite Hfl2, Hfl; lia |]
    end.
    eexists. exact Hw3.
Qed.

Lemma write_aligned_succeeds_witness :
  exists s', Serializer.write_aligned 16 8 writer_at4 [xaa] 1 8 = Ok s'.
Proof.
  apply (@write_aligned_succeeds 16 8 writer_at4
           (mkFILE [x01; x02; x03; x04] 4 false false None 0 0 1 no_faults)
           [xaa] 1 8);
    first [reflexivity | lia | vm_compute; split; congruence
          | vm_compute; congruence].
Defined.

(** * Further properties of the reader *)

(** ** The positioned state is kept *)

Lemma read_page_buffer (d d' : Deserializer.t) (n : Z) :
  0 <= Deserializer._target_page_size d ->
  Deserializer._target_page_size d <= len (Deserializer._read_buffer d) ->
  Deserializer._read_page d = Ok (d', n) ->
  len (Deserializer._read_buffer d') = len (Deserializer._read_buffer d)
  /\ Deserializer._filename d' = Deserializer._filename d
  /\ exists f', Deserializer._file d' = Some f'.
Proof.
  intros Ht Hbuf H.
  destruct (Deserializer._file d) as [f |] eqn:Hf;
    [| unfold Deserializer._read_page in H; rewrite Hf in H; discriminate].
  rewrite (read_page_unfold d Hf) in H. cbv zeta in H.
  match type of H with
  | context [fread ?f1 ?z] =>
      pose proof (@fread_len f1 z Ht) as Hlen;
      set (got := fst (fread f1 z)) in *;
      set (f2 := snd (fread f1 z)) in *
  end.
  assert (Hstore : len (Deserializer.store (Deserializer._read_buffer d) got)
                   = len (Deserializer._read_buffer d))
    by (apply len_store; lia).
  destruct (negb (len got =? _)); [destruct (ferror f2 || _) |];
    inversion H; subst d'; simpl; eauto.
Qed.

Lemma read_page_safe (d d' : Deserializer.t) (n : Z) :
  reader_safe d -> Deserializer._read_page d = Ok (d', n) -> reader_safe d'.
Proof.
  intros ((Ht & Ha & Hb & He & Hc) & Hfile & Hpos & Hbuf & Habuf & Hlen & Hcur)
         H.
  assert (Ht0 : 0 <= Deserializer._target_page_size d) by lia.
  destruct (read_page_buffer d Ht0 Hbuf H) as (Hl' & _ & Hf').
  pose proof (read_page_cursor_in_page d Ht0 H) as Hcur'.
  apply read_page_begin in H. destruct H as (Hb' & Hc' & Ha' & Ht' & He').
  unfold reader_safe, reader_typed.
  rewrite Ht', Ha', Hb', Hc', He', Hl'.
  repeat split; try assumption; try apply wrap_fits;
    unfold U64.fits in *; lia.
Qed.

Lemma read_loop_safe (fuel : nat) :
  forall (d d' : Deserializer.t) (dest dest' : list byte) (size size' : Z),
    reader_safe d ->
    Deserializer.read_loop fuel d dest size = Ok (d', dest', size') ->
    reader_safe d'.
Proof.
  induction fuel as [| fuel IH]; intros d d' dest dest' size size' Hd; simpl;
    destruct (U64.add (Deserializer._read_buffer_offset d) size
              >? Deserializer._active_page_size d);
    try discriminate;
    try (intros H; inversion H; subst; exact Hd).
  intros H. apply bind_Ok in H. destruct H as (chunk & _ & H).
  apply bind_Ok in H. destruct H as ([d1 n] & Hpage & H).
  destruct ((n <? Deserializer._active_page_size d1) && _); [discriminate |].
  apply IH in H; [exact H |]. apply (read_page_safe Hd Hpage).
Qed.

Lemma with_cursor_safe (d : Deserializer.t) (c : Z) :
  reader_safe d -> 0 <= c <= Deserializer._active_page_size d ->
  reader_safe (Deserializer.with_read_buffer_offset d c).
Proof.
  intros ((Ht & Ha & Hb & He & Hc) & Hfile & Hpos & Hbuf & Habuf & Hlen & Hcur)
         Hrange.
  unfold reader_safe, reader_typed, cursor_in_page. simpl.
  repeat split; try assumption; unfold U64.fits in *; lia.
Qed.

Lemma read_safe (fuel : nat) (d d' : Deserializer.t) (size : Z)
  (out : list byte) :
  reader_safe d -> Deserializer.read fuel d size = Ok (d', out) ->
  reader_safe d'.
Proof.
  intros Hd H. pose proof H as Hcur. apply read_cursor_in_page in Hcur.
  unfold Deserializer.read in H.
  apply bind_Ok in H. destruct H as ([[d1 dest] size'] & Hloop & H).
  apply bind_Ok in H. destruct H as (chunk & _ & H).
  inversion H; subst d' out.
  apply with_cursor_safe; [eapply read_loop_safe; [exact Hd | exact Hloop] |].
  exact Hcur.
Qed.

Lemma set_offset_safe (d d' : Deserializer.t) (new_offset : Z) :
  reader_safe d -> U64.fits new_offset ->
  Deserializer.set_offset d new_offset = Ok d' -> reader_safe d'.
Proof.
  intros Hd Hn H.
  pose proof Hd as (Ht & Hfile & Hpos & Hbuf & Habuf & Hlen & Hcur).
  pose proof (set_offset_cursor_in_page Ht Hn H) as Hcur'.
  unfold Deserializer.set_offset in H.
  destruct ((Deserializer._file_offset_page_begin d <=? new_offset) && _).
  - inversion H; subst d'. apply with_cursor_safe; [exact Hd | exact Hcur'].
  - destruct (Deserializer._file d) as [f |]; [| discriminate].
    destruct (fseek f new_offset) as [ret f'].
    destruct (negb (ret =? 0)); [discriminate |].
    inversion H; subst d'. destruct Ht as (Ht & Ha & Hb & He & Hc).
    unfold reader_safe, reader_typed, cursor_in_page. simpl.
    repeat split; eauto; unfold U64.fits in *; lia.
Qed.

Lemma len_resize (buf : list byte) (n : Z) :
  len (Deserializer.resize buf n) = Z.max (len buf) n.
Proof.
  unfold Deserializer.resize, len. rewrite length_app, repeat_length. lia.
Qed.

Lemma set_page_size_safe (d d' : Deserializer.t) (new_page_size : Z) :
  reader_safe d -> U64.fits new_page_size ->
  Deserializer.set_page_size d new_page_size = Ok d' -> reader_safe d'.
Proof.
  intros ((Ht & Ha & Hb & He & Hc) & Hfile & Hpos & Hbuf & Habuf & Hlen & Hcur)
         Hn.
  unfold Deserializer.set_page_size.
  destruct (Z.eqb_spec new_page_size 0) as [E | E]; [discriminate |].
  intros H. inversion H; subst d'.
  unfold reader_safe, reader_typed, cursor_in_page in *. simpl.
  destruct (Z.ltb_spec (len (Deserializer._read_buffer d)) new_page_size);
    rewrite ?len_resize; repeat split; try assumption;
    unfold U64.fits in *; lia.
Qed.

Lemma skip_padding_safe (d d' : Deserializer.t) (alignment : Z) :
  reader_safe d ->
  Deserializer.skip_padding d alignment = Ok d' -> reader_safe d'.
Proof.
  intros Hd. unfold Deserializer.skip_padding.
  destruct (alignment =? 0); [discriminate |].
  destruct (negb (_ =? 0)); [| intros H; inversion H; subst; exact Hd].
  destruct (Z.gtb_spec
              (U64.add (Deserializer._read_buffer_offset d)
                 (U64.sub alignment
                    (Deserializer._read_buffer_offset d mod alignment)))
              (Deserializer._active_page_size d)) as [Hgt | Hle].
  - intros H. apply bind_Ok in H. destruct H as ([d1 n] & Hpage & H).
    inversion H; subst d'. eapply read_page_safe; [exact Hd | exact Hpage].
  - intros H. inversion H; subst d'. apply with_cursor_safe; [exact Hd |].
    pose proof (wrap_fits (Deserializer._read_buffer_offset d
                           + U64.sub alignment
                               (Deserializer._read_buffer_offset d mod alignment)))
      as Hw.
    unfold U64.add in *. unfold U64.fits in Hw. lia.
Qed.

(** X4.  Every successful [set_offset], [set_page_size], [read] and
    [read_aligned] keeps a reader in the positioned state: the stream stays
    open, the cursor stays inside the active page, and the buffer stays
    long enough for the active and the target page. *)
Theorem reader_safe_kept
  (d : Deserializer.t) (Hd : reader_safe d) :
  (forall new_offset d',
      U64.fits new_offset ->
      Deserializer.set_offset d new_offset = Ok d' -> reader_safe d')
  /\ (forall new_page_size d',
         U64.fits new_page_size ->
         Deserializer.set_page_size d new_page_size = Ok d' -> reader_safe d')
  /\ (forall fuel size d' out,
         Deserializer.read fuel d size = Ok (d', out) -> reader_safe d')
  /\ (forall fuel size alignment d' out,
         Deserializer.read_aligned fuel d size alignment = Ok (d', out) ->
         reader_safe d').
Proof.
  split; [| split; [| split]].
  - intros new_offset d' Hn H. eapply set_offset_safe; eassumption.
  - intros n d' Hn H. eapply set_page_size_safe; eassumption.
  - intros fuel size d' out H. eapply read_safe; eassumption.
  - intros fuel size alignment d' out H.
    unfold Deserializer.read_aligned in H. apply bind_Ok in H.
    destruct H as (d1 & Hskip & Hread).
    eapply read_safe; [| exact Hread].
    eapply skip_padding_safe; eassumption.
Qed.

(** The first [set_offset] after construction puts the reader in the
    positioned state. *)
Lemma make_set_offset_safe (filename : string) (opened : option FILE)
  (page_size new_offset : Z) (d0 d : Deserializer.t) :
  U64.fits page_size -> U64.fits new_offset ->
  Deserializer.make filename opened page_size = Ok d0 ->
  Deserializer.set_offset d0 new_offset = Ok d ->
  reader_safe d
  /\ Deserializer._active_page_size d = 0
  /\ Deserializer._read_buffer_offset d = 0
  /\ Deserializer._file_offset_page_end d = new_offset
  /\ Deserializer._target_page_size d = page_size.
Proof.
  intros Hp Hn Hmake Hseek. unfold Deserializer.make in Hmake.
  destruct opened as [f |]; [| discriminate].
  destruct (Z.eqb_spec page_size 0) as [E | E]; [discriminate |].
  inversion Hmake; subst d0; clear Hmake.
  unfold Deserializer.set_offset in Hseek. cbn - [Z.leb Z.ltb fseek] in Hseek.
  replace (new_offset <? 0) with false in Hseek
    by (symmetry; apply Z.ltb_ge; unfold U64.fits in Hn; lia).
  rewrite andb_false_r in Hseek.
  destruct (fseek f new_offset) as [ret f'].
  destruct (negb (ret =? 0)); [discriminate |].
  inversion Hseek; subst d.
  unfold reader_safe, reader_typed, cursor_in_page. simpl.
  rewrite len_repeat.
  repeat split; eauto; unfold U64.fits in *; try lia.
Qed.

Lemma reader_page1_safe : reader_safe reader_page1.
Proof.
  unfold reader_safe, reader_typed, cursor_in_page, U64.fits. simpl.
  repeat split; eauto; vm_compute; congruence.
Qed.

Lemma reader_safe_kept_witness : reader_safe reader_page2.
Proof.
  destruct (@reader_safe_kept reader_page1 reader_page1_safe)
    as (_ & _ & H & _).
  apply (H 4%nat 3 reader_page2 [x44; x45; x46]). reflexivity.
Defined.

(** X5.  The first [set_offset] after construction puts the reader in the
    positioned state, with [get_offset] at the position sought. *)
Theorem first_set_offset_positions_reader
  (filename : string) (opened : option FILE) (page_size new_offset : Z)
  (d0 d : Deserializer.t)
  (Hp : U64.fits page_size) (Hn : U64.fits new_offset)
  (Hmake : Deserializer.make filename opened page_size = Ok d0)
  (Hseek : Deserializer.set_offset d0 new_offset = Ok d) :
  reader_safe d /\ Deserializer.get_offset d = new_offset.
Proof.
  destruct (make_set_offset_safe _ _ Hp Hn Hmake Hseek)
    as (Hsafe & Ha & Hc & He & Ht).
  split; [exact Hsafe |].
  unfold Deserializer.set_offset in Hseek.
  unfold Deserializer.make in Hmake.
  destruct opened as [f |]; [| discriminate].
  destruct (page_size =? 0); [discriminate |].
  inversion Hmake; subst d0; clear Hmake.
  cbn - [Z.leb Z.ltb fseek] in Hseek.
  replace (new_offset <? 0) with false in Hseek
    by (symmetry; apply Z.ltb_ge; unfold U64.fits in Hn; lia).
  rewrite andb_false_r in Hseek.
  destruct (fseek f new_offset) as [ret f'].
  destruct (negb (ret =? 0)); [discriminate |].
  inversion Hseek; subst d. unfold Deserializer.get_offset. simpl.
  apply add_0_r. exact Hn.
Qed.

Lemma first_set_offset_positions_reader_witness :
  reader_safe pair_reader_sought
  /\ Deserializer.get_offset pair_reader_sought = 3.
Proof.
  apply (@first_set_offset_positions_reader "out.bin"
           (Some (fopen (bytes pair_file) no_faults)) 1 3
           pair_reader_made pair_reader_sought);
    first [reflexivity | vm_compute; split; congruence].
Defined.

(** ** [read] neither leaves the buffer nor loops *)

Lemma read_page_outcome (d : Deserializer.t) :
  reader_safe d ->
  (exists d' n, Deserializer._read_page d = Ok (d', n))
  \/ Deserializer._read_page d
     = Throw (ReadException (Deserializer._filename d) None).
Proof.
  intros (_ & (f & Hf) & _).
  rewrite (read_page_unfold d Hf). cbv zeta.
  destruct (negb (len _ =? _)); [destruct (ferror _ || _) |]; eauto.
Qed.

Lemma read_loop_outcome (fuel : nat) :
  forall (d : Deserializer.t) (dest : list byte) (size : Z),
    reader_safe d -> 0 <= size ->
    len (Deserializer._read_buffer d) + size < U64.modulus ->
    Deserializer._read_buffer_offset d + size
    - Deserializer._active_page_size d <= Z.of_nat fuel ->
    (exists d' dest' size',
        Deserializer.read_loop fuel d dest size = Ok (d', dest', size')
        /\ reader_safe d' /\ 0 <= size'
        /\ Deserializer._read_buffer_offset d' + size'
           <= Deserializer._active_page_size d')
    \/ (exists message,
           Deserializer.read_loop fuel d dest size
           = Throw (ReadException (Deserializer._filename d) message)).
Proof.
  induction fuel as [| fuel IH]; intros d dest size Hd Hsize Hfit Hfuel;
    pose proof Hd as ((Ht & Ha & Hb & He & Hc) & Hfile & Hpos & Hbuf & Habuf
                      & Hlen & Hcur);
    unfold cursor_in_page in Hcur;
    assert (Hadd : U64.add (Deserializer._read_buffer_offset d) size
                   = Deserializer._read_buffer_offset d + size)
      by (apply add_small; unfold U64.fits; lia);
    simpl; rewrite Hadd;
    destruct (Z.gtb_spec (Deserializer._read_buffer_offset d + size)
                         (Deserializer._active_page_size d)) as [Hgt | Hle];
    try lia;
    try (left; exists d, dest, size;
         split; [reflexivity | split; [exact Hd | split; lia]]).
  rewrite sub_small by (unfold U64.fits; lia).
  unfold memcpy.
  replace (Deserializer._read_buffer_offset d
           + (Deserializer._active_page_size d
              - Deserializer._read_buffer_offset d)
           <=? len (Deserializer._read_buffer d)) with true
    by (symmetry; apply Z.leb_le; lia).
  cbn [bind].
  rewrite sub_small by (unfold U64.fits; lia).
  destruct (read_page_outcome Hd) as [(d1 & n & Hpage) | Hthrow];
    [| rewrite Hthrow; right; eexists; reflexivity].
  rewrite Hpage. cbn [bind].
  pose proof (read_page_safe Hd Hpage) as Hd1.
  assert (Ht0 : 0 <= Deserializer._target_page_size d) by lia.
  destruct (read_page_buffer d Ht0 Hbuf Hpage) as (Hl1 & Hn1 & _).
  pose proof Hpage as Hfields. apply read_page_begin in Hfields.
  destruct Hfields as (_ & Hc1 & Ha1 & _).
  destruct ((n <? Deserializer._active_page_size d1) && _).
  - right. rewrite Hn1. eexists. reflexivity.
  - set (lead := Deserializer._active_page_size d
                 - Deserializer._read_buffer_offset d) in *.
    assert (H0 : 0 <= size - lead) by lia.
    assert (H1 : len (Deserializer._read_buffer d1) + (size - lead)
                 < U64.modulus) by (rewrite Hl1; lia).
    assert (H2 : Deserializer._read_buffer_offset d1 + (size - lead)
                 - Deserializer._active_page_size d1 <= Z.of_nat fuel)
      by (rewrite Hc1, Ha1; lia).
    destruct (IH d1 (dest ++ firstn (Z.to_nat lead)
                       (skipn (Z.to_nat (Deserializer._read_buffer_offset d))
                          (Deserializer._read_buffer d)))
                (size - lead) Hd1 H0 H1 H2)
      as [Hok | (message & Hthrow)].
    + left. exact Hok.
    + right. exists message. rewrite Hthrow, Hn1. reflexivity.
Qed.

(** X6.  From the positioned state, a [read] whose size keeps the cursor
    arithmetic inside 64 bits, given one unit of fuel per requested byte,
    either succeeds or throws a [ReadException] naming the file: it never
    copies from outside the buffer and its loop ends. *)
Theorem read_succeeds_or_throws
  (fuel : nat) (d : Deserializer.t) (size : Z)
  (Hd : reader_safe d) (Hsize : 0 <= size)
  (Hfit : len (Deserializer._read_buffer d) + size < U64.modulus)
  (Hfuel : size <= Z.of_nat fuel) :
  (exists d' out, Deserializer.read fuel d size = Ok (d', out))
  \/ (exists message,
         Deserializer.read fuel d size
         = Throw (ReadException (Deserializer._filename d) message)).
Proof.
  pose proof Hd as (_ & _ & _ & _ & _ & _ & Hcur).
  unfold cursor_in_page in Hcur. unfold Deserializer.read.
  destruct (@read_loop_outcome fuel d [] size Hd Hsize Hfit)
    as [(d' & dest' & size' & Hloop & Hd' & Hs' & Hin) | (message & Hthrow)];
    [lia | |].
  - left. rewrite Hloop. cbn [bind]. unfold memcpy.
    destruct Hd' as (_ & _ & _ & _ & Habuf' & _).
    replace (Deserializer._read_buffer_offset d' + size'
             <=? len (Deserializer._read_buffer d')) with true
      by (symmetry; apply Z.leb_le; lia).
    cbn [bind]. eauto.
  - right. exists message. rewrite Hthrow. reflexivity.
Qed.

Lemma read_succeeds_or_throws_witness :
  (exists d' out, Deserializer.read 3 reader_page1 3 = Ok (d', out))
  \/ (exists message,
         Deserializer.read 3 reader_page1 3
         = Throw (ReadException "in.bin" message)).
Proof.
  apply (@read_succeeds_or_throws 3 reader_page1 3 reader_page1_safe);
    vm_compute; congruence.
Defined.

(** ** Reads return the bytes of the stream *)

Lemma refills_step (m P : Z) :
  0 < m -> 0 < P -> refills m P = 1 + refills (m - P) P.
Proof.
  intros Hm HP. unfold refills.
  destruct (Z.leb_spec m 0) as [H0 | _]; [lia |].
  destruct (Z.leb_spec (m - P) 0) as [Hle | Hgt].
  - rewrite Z.div_small by lia. lia.
  - replace (m - 1) with (m - P - 1 + 1 * P) by ring.
    rewrite Z_div_plus_full by lia. lia.
Qed.

(** A window of the buffered page is the same window of the stream. *)
Lemma page_slice (X junk : list byte) (P c l : Z) :
  0 <= c -> 0 <= l -> c + l <= P -> c + l <= len X ->
  firstn (Z.to_nat l) (skipn (Z.to_nat c) (firstn (Z.to_nat P) X ++ junk))
  = firstn (Z.to_nat l) (skipn (Z.to_nat c) X).
Proof.
  unfold len. intros Hc Hl HP HX.
  rewrite skipn_app, firstn_app, length_skipn, length_firstn.
  replace (Z.to_nat l - (Nat.min (Z.to_nat P) (List.length X) - Z.to_nat c))%nat
    with 0%nat by lia.
  rewrite firstn_0, app_nil_r.
  rewrite skipn_firstn_comm, firstn_firstn.
  f_equal. lia.
Qed.

(** A refill over a clean stream that stands where the page is to begin
    loads that page. *)
Lemma refill_loads (d : Deserializer.t) (f : FILE) :
  Deserializer._file d = Some f -> stream_clean f ->
  0 < Deserializer._target_page_size d ->
  Deserializer._target_page_size d <= len (Deserializer._read_buffer d) ->
  len (bytes f) + Deserializer._target_page_size d < U64.modulus ->
  Deserializer._file_offset_page_end d = pos f ->
  0 <= pos f <= len (bytes f) ->
  exists d1 f1,
    Deserializer._read_page d
    = Ok (d1, Z.min (Deserializer._target_page_size d)
                (len (bytes f) - pos f))
    /\ reader_loaded d1 f1
    /\ Deserializer._file_offset_page_begin d1 = pos f
    /\ Deserializer._read_buffer_offset d1 = 0
    /\ Deserializer._target_page_size d1 = Deserializer._target_page_size d
    /\ Deserializer._filename d1 = Deserializer._filename d
    /\ bytes f1 = bytes f
    /\ nread f1 = S (nread f)
    /\ nseek f1 = nseek f.
Proof.
  intros Hfile (Hbad & Herr) HP Hbuf Hbound Hend Hpos.
  set (P := Deserializer._target_page_size d) in *.
  set (f0 := if Deserializer._active_page_size d =? P then f
             else setvbuf f P).
  assert (H0 : bad_byte (faults f0) = None /\ error f0 = false
               /\ bytes f0 = bytes f /\ pos f0 = pos f
               /\ nread f0 = nread f /\ nseek f0 = nseek f).
  { subst f0. destruct (_ =? P); simpl; auto 10. }
  destruct H0 as (Hbad0 & Herr0 & Hbytes0 & Hpos0 & Hnread0 & Hnseek0).
  pose proof (read_page_unfold d Hfile) as Hrun. cbv zeta in Hrun.
  fold P in Hrun. fold f0 in Hrun.
  rewrite (fread_clean f0 P Hbad0) in Hrun. cbn [fst snd] in Hrun.
  set (got := available f0 P) in *.
  assert (Hgot : got = firstn (Z.to_nat P) (skipn (Z.to_nat (pos f)) (bytes f))).
  { unfold got, available. rewrite Hbytes0, Hpos0. reflexivity. }
  assert (Hlen : len got = Z.min P (len (bytes f) - pos f)).
  { unfold got. rewrite len_available by lia. rewrite Hbytes0, Hpos0. lia. }
  set (f2 := mkFILE (bytes f0) (pos f0 + len got)
               (eof f0 || (len got <? P)) (error f0 || false)
               (vbuf f0) (S (nread f0)) (nseek f0) (nwrite f0) (faults f0))
    in *.
  set (d1 := Deserializer.mk (Some f2) P P
               (Deserializer._file_offset_page_end d)
               (U64.add (Deserializer._file_offset_page_end d) (len got))
               0 (Deserializer._filename d)
               (Deserializer.store (Deserializer._read_buffer d) got)).
  assert (Hpage : Deserializer._read_page d = Ok (d1, len got)).
  { rewrite Hrun. unfold ferror, feof. subst d1 f2. cbn [error eof].
    rewrite Herr0. cbn [orb].
    destruct (Z.eqb_spec (len got) P) as [E | E]; cbn [negb].
    - rewrite E. reflexivity.
    - replace (len got <? P) with true by (symmetry; apply Z.ltb_lt; lia).
      rewrite orb_true_r. reflexivity. }
  exists d1, f2. rewrite <- Hlen.
  split; [exact Hpage |].
  split; [| subst d1 f2; simpl; rewrite Hend; auto 10].
  unfold reader_loaded, stream_clean. subst d1 f2.
  cbn [Deserializer._file Deserializer._target_page_size
       Deserializer._active_page_size Deserializer._file_offset_page_begin
       Deserializer._file_offset_page_end Deserializer._read_buffer_offset
       Deserializer._read_buffer bytes pos error faults].
  rewrite Hbytes0, Hpos0, Hend, Herr0, Hlen.
  replace (Z.max 0 (len (bytes f) - pos f)) with (len (bytes f) - pos f)
    by lia.
  repeat split; try assumption; try lia.
  - rewrite len_store; lia.
  - apply add_small. unfold U64.fits. lia.
  - exists (skipn (List.length got) (Deserializer._read_buffer d)).
    unfold Deserializer.store. rewrite Hgot. reflexivity.
Qed.

Ltac reader_fields :=
  cbn [Deserializer._file Deserializer._target_page_size
       Deserializer._active_page_size Deserializer._file_offset_page_begin
       Deserializer._file_offset_page_end Deserializer._read_buffer_offset
       Deserializer._read_buffer Deserializer._filename
       Deserializer.with_read_buffer_offset
       bytes pos error faults nread nseek] in *.

Lemma stream_slice_app (f : FILE) (q a b : Z) :
  0 <= q -> 0 <= a -> 0 <= b ->
  stream_slice f q a ++ stream_slice f (q + a) b = stream_slice f q (a + b).
Proof.
  intros Hq Ha Hb. unfold stream_slice.
  replace (Z.to_nat (a + b)) with (Z.to_nat a + Z.to_nat b)%nat by lia.
  rewrite firstn_add, skipn_skipn. do 3 f_equal. lia.
Qed.

Lemma reader_at_facts (d : Deserializer.t) (f : FILE) (q : Z) :
  reader_at d f q ->
  Deserializer._file d = Some f
  /\ stream_clean f
  /\ 0 < Deserializer._target_page_size d
  /\ Deserializer._target_page_size d <= len (Deserializer._read_buffer d)
  /\ len (bytes f) + Deserializer._target_page_size d < U64.modulus
  /\ 0 <= Deserializer._read_buffer_offset d <= Deserializer._active_page_size d
  /\ Deserializer._active_page_size d <= Deserializer._target_page_size d
  /\ 0 <= q <= len (bytes f).
Proof.
  intros [(Hl & Hq) | Hs].
  - unfold reader_loaded in Hl. cbv zeta in Hl.
    destruct Hl as (Hf & Hc & HP & Ha & Hbuf & Hbound & Hb & Hcur & He & Hpos
                    & _).
    repeat (split; [first [assumption | lia] |]). lia.
  - destruct Hs as (Hf & Hc & HP & Hbuf & Hbound & Ha & Hcur & He & Hpos & Hq).
    repeat (split; [first [assumption | lia] |]). lia.
Qed.

(** A request that fits in what is buffered is served from the buffer. *)
Lemma reader_at_in_page (fuel : nat) (d : Deserializer.t) (f : FILE)
  (q size : Z) (dest : list byte) :
  reader_at d f q -> 0 <= size ->
  Deserializer._read_buffer_offset d + size
  <= Deserializer._active_page_size d ->
  q + size <= len (bytes f) ->
  read_rest fuel d dest size
  = Ok (Deserializer.with_read_buffer_offset d
          (Deserializer._read_buffer_offset d + size),
        dest ++ stream_slice f q size)
  /\ reader_at (Deserializer.with_read_buffer_offset d
                  (Deserializer._read_buffer_offset d + size)) f (q + size).
Proof.
  intros Hat Hsize Hin Hfile.
  pose proof (reader_at_facts Hat)
    as (Hf & Hc & HP & Hbuf & Hbound & Hcur & Ha & Hq).
  assert (Hadd : U64.add (Deserializer._read_buffer_offset d) size
                 = Deserializer._read_buffer_offset d + size)
    by (apply add_small; unfold U64.fits; lia).
  unfold read_rest. rewrite read_loop_exit
    by (rewrite Hadd; destruct (Z.gtb_spec
          (Deserializer._read_buffer_offset d + size)
          (Deserializer._active_page_size d)); [lia | reflexivity]).
  cbn [bind]. unfold memcpy.
  replace (Deserializer._read_buffer_offset d + size
           <=? len (Deserializer._read_buffer d)) with true
    by (symmetry; apply Z.leb_le; lia).
  cbn [bind]. rewrite Hadd.
  destruct Hat as [(Hl & Hqeq) | Hs].
  - unfold reader_loaded in Hl. cbv zeta in Hl.
    destruct Hl as (_ & _ & _ & Hact & _ & _ & Hb & Hcn & He & Hpos
                    & junk & Hpage).
    split.
    + do 3 f_equal. rewrite Hpage. unfold stream_slice.
      rewrite page_slice; try lia.
      * rewrite skipn_skipn. do 2 f_equal. lia.
      * rewrite len_skipn by lia. lia.
    + left. split; [| reader_fields; lia].
      unfold reader_loaded. cbv zeta. reader_fields.
      repeat (split; [first [assumption | lia] |]).
      exists junk. exact Hpage.
  - pose proof Hs as (_ & _ & _ & _ & _ & _ & Hceq & He & Hpos & _).
    assert (size = 0) by lia. subst size.
    split.
    + unfold stream_slice. simpl. reflexivity.
    + right. destruct Hs as (H1 & H2 & H3 & H4 & H5 & H6 & H7 & H8 & H9 & H10).
      unfold reader_sought. reader_fields.
      rewrite !Z.add_0_r.
      repeat (split; [first [assumption | lia] |]). lia.
Qed.

Lemma read_rest_refill (fuel : nat) (d d' : Deserializer.t)
  (dest chunk : list byte) (size lead n : Z) :
  (U64.add (Deserializer._read_buffer_offset d) size
   >? Deserializer._active_page_size d) = true ->
  U64.sub (Deserializer._active_page_size d)
    (Deserializer._read_buffer_offset d) = lead ->
  memcpy (Deserializer._read_buffer d) (Deserializer._read_buffer_offset d)
    lead = Ok chunk ->
  Deserializer._read_page d = Ok (d', n) ->
  read_rest (S fuel) d dest size
  = if (n <? Deserializer._active_page_size d') && (n <? U64.sub size lead)
    then Throw (ReadException (Deserializer._filename d')
                  (Some "not enough remaining bytes at current offset"%string))
    else read_rest fuel d' (dest ++ chunk) (U64.sub size lead).
Proof.
  intros Hcond Hlead Hcopy Hpage. unfold read_rest. simpl.
  rewrite Hcond, Hlead, Hcopy. simpl. rewrite Hpage. simpl.
  destruct ((n <? Deserializer._active_page_size d') && _); reflexivity.
Qed.

(** What a request that overshoots the active page finds before the
    refill. *)
Lemma reader_at_overshoot (d : Deserializer.t) (f : FILE) (q size : Z) :
  reader_at d f q -> 0 <= size ->
  Deserializer._target_page_size d + size < U64.modulus ->
  Deserializer._read_buffer_offset d + size
  > Deserializer._active_page_size d ->
  let lead := Deserializer._active_page_size d
              - Deserializer._read_buffer_offset d in
  (U64.add (Deserializer._read_buffer_offset d) size
   >? Deserializer._active_page_size d) = true
  /\ U64.sub (Deserializer._active_page_size d)
       (Deserializer._read_buffer_offset d) = lead
  /\ U64.sub size lead = size - lead
  /\ memcpy (Deserializer._read_buffer d)
       (Deserializer._read_buffer_offset d) lead
     = Ok (firstn (Z.to_nat lead)
             (skipn (Z.to_nat (Deserializer._read_buffer_offset d))
                (Deserializer._read_buffer d)))
  /\ Deserializer._file_offset_page_end d = pos f.
Proof.
  intros Hat Hsize Hfit Hover lead.
  pose proof (reader_at_facts Hat)
    as (Hf & Hc & HP & Hbuf & Hbound & Hcur & Ha & Hq).
  repeat split.
  - rewrite add_small by (unfold U64.fits; lia).
    destruct (Z.gtb_spec (Deserializer._read_buffer_offset d + size)
                (Deserializer._active_page_size d)); [reflexivity | lia].
  - apply sub_small. unfold U64.fits. lia.
  - apply sub_small. unfold U64.fits. subst lead. lia.
  - unfold memcpy.
    replace (Deserializer._read_buffer_offset d + lead
             <=? len (Deserializer._read_buffer d)) with true
      by (symmetry; apply Z.leb_le; subst lead; lia).
    reflexivity.
  - destruct Hat as [(Hl & _) | Hs].
    + unfold reader_loaded in Hl. cbv zeta in Hl.
      destruct Hl as (_ & _ & _ & _ & _ & _ & _ & _ & He & Hpos & _).
      congruence.
    + destruct Hs as (_ & _ & _ & _ & _ & _ & _ & He & Hpos & _).
      congruence.
Qed.

(** When the requested bytes are in the stream, the bytes left in the
    buffer are the bytes of the stream from the read position, and the
    stream stands right behind them. *)
Lemma reader_at_lead (d : Deserializer.t) (f : FILE) (q size : Z) :
  reader_at d f q -> 0 <= size ->
  Deserializer._read_buffer_offset d + size
  > Deserializer._active_page_size d ->
  q + size <= len (bytes f) ->
  let lead := Deserializer._active_page_size d
              - Deserializer._read_buffer_offset d in
  firstn (Z.to_nat lead)
    (skipn (Z.to_nat (Deserializer._read_buffer_offset d))
       (Deserializer._read_buffer d))
  = stream_slice f q lead
  /\ pos f = q + lead.
Proof.
  intros Hat Hsize Hover Hin lead.
  destruct Hat as [(Hl & Hq) | Hs].
  - unfold reader_loaded in Hl. cbv zeta in Hl.
    destruct Hl as (_ & _ & HP & Ha & _ & _ & Hb & Hcur & _ & Hpos
                    & junk & Hpage).
    split.
    + rewrite Hpage. unfold stream_slice. rewrite page_slice; try lia.
      * rewrite skipn_skipn. do 2 f_equal. lia.
      * rewrite len_skipn by lia. lia.
    + lia.
  - destruct Hs as (_ & _ & _ & _ & _ & _ & Hceq & _ & Hpos & _).
    replace lead with 0 by lia. split; [reflexivity | lia].
Qed.

(** [read] from a positioned reader, through as many refills as it takes:
    the bytes delivered, where the reader stands afterwards, and how often
    the stream was read. *)
Lemma read_rest_at (fuel : nat) :
  forall (d : Deserializer.t) (f : FILE) (q size : Z) (dest : list byte),
    reader_at d f q -> 0 <= size -> q + size <= len (bytes f) ->
    Deserializer._read_buffer_offset d + size
    - Deserializer._active_page_size d <= Z.of_nat fuel ->
    exists d' f',
      read_rest fuel d dest size = Ok (d', dest ++ stream_slice f q size)
      /\ reader_at d' f' (q + size)
      /\ bytes f' = bytes f
      /\ Z.of_nat (nread f')
         = Z.of_nat (nread f)
           + refills (Deserializer._read_buffer_offset d + size
                      - Deserializer._active_page_size d)
               (Deserializer._target_page_size d)
      /\ nseek f' = nseek f
      /\ Deserializer._target_page_size d' = Deserializer._target_page_size d.
Proof.
  induction fuel as [| fuel IH]; intros d f q size dest Hat Hsize Hin Hfuel;
    pose proof (reader_at_facts Hat)
      as (Hf & Hc & HP & Hbuf & Hbound & Hcur & Ha & Hq);
    destruct (Z_le_gt_dec (Deserializer._read_buffer_offset d + size)
                (Deserializer._active_page_size d)) as [Hle | Hgt];
    try lia;
    try (destruct (@reader_at_in_page 0 d f q size dest Hat Hsize Hle Hin)
           as (Hrun & Hat');
         eexists; exists f; rewrite Hrun;
         unfold refills;
         replace (Deserializer._read_buffer_offset d + size
                  - Deserializer._active_page_size d <=? 0) with true
           by (symmetry; apply Z.leb_le; lia);
         repeat split; try assumption; try reflexivity; lia).
  - destruct (@reader_at_in_page (S fuel) d f q size dest Hat Hsize Hle Hin)
      as (Hrun & Hat').
    eexists; exists f; rewrite Hrun. unfold refills.
    replace (Deserializer._read_buffer_offset d + size
             - Deserializer._active_page_size d <=? 0) with true
      by (symmetry; apply Z.leb_le; lia).
    repeat split; try assumption; try reflexivity; lia.
  - assert (Hfit : Deserializer._target_page_size d + size < U64.modulus)
      by lia.
    pose proof (reader_at_overshoot Hat Hsize Hfit Hgt) as Hstep.
    pose proof (reader_at_lead Hat Hsize Hgt Hin) as Hlead.
    cbv zeta in Hstep, Hlead.
    set (lead := Deserializer._active_page_size d
                 - Deserializer._read_buffer_offset d) in *.
    destruct Hstep as (Hcond & Hsub & Hrest & Hcopy & Hend).
    destruct Hlead as (Hchunk & Hpos).
    destruct (@refill_loads d f Hf Hc HP Hbuf Hbound Hend)
      as (d1 & f1 & Hpage & Hl1 & Hb1 & Hc1 & Ht1 & Hn1 & Hbytes1 & Hnread1
          & Hnseek1); [lia |].
    rewrite (@read_rest_refill fuel d d1 dest _ size lead _ Hcond Hsub Hcopy
               Hpage).
    assert (Ha1 : Deserializer._active_page_size d1
                  = Deserializer._target_page_size d).
    { unfold reader_loaded in Hl1. cbv zeta in Hl1.
      destruct Hl1 as (_ & _ & _ & Hact & _). congruence. }
    rewrite Hrest, Ha1.
    replace ((Z.min (Deserializer._target_page_size d) (len (bytes f) - pos f)
              <? Deserializer._target_page_size d)
             && (Z.min (Deserializer._target_page_size d)
                   (len (bytes f) - pos f) <? size - lead)) with false.
    2:{ symmetry. apply andb_false_iff.
        destruct (Z.ltb_spec
                    (Z.min (Deserializer._target_page_size d)
                       (len (bytes f) - pos f))
                    (Deserializer._target_page_size d)); [| auto].
        right. apply Z.ltb_ge. lia. }
    assert (Hat1 : reader_at d1 f1 (q + lead)).
    { left. split; [exact Hl1 | lia]. }
    assert (H0 : 0 <= size - lead) by lia.
    assert (H1 : q + lead + (size - lead) <= len (bytes f1))
      by (rewrite Hbytes1; lia).
    assert (H2 : Deserializer._read_buffer_offset d1 + (size - lead)
                 - Deserializer._active_page_size d1 <= Z.of_nat fuel)
      by (rewrite Hc1, Ha1; lia).
    destruct (IH d1 f1 (q + lead) (size - lead)
                (dest ++ firstn (Z.to_nat lead)
                   (skipn (Z.to_nat (Deserializer._read_buffer_offset d))
                      (Deserializer._read_buffer d))) Hat1 H0 H1 H2)
      as (d' & f' & Hrun & Hat' & Hbytes' & Hnread' & Hnseek' & Ht').
    exists d', f'. rewrite Hrun, Hchunk.
    replace (q + lead + (size - lead)) with (q + size) in Hat' by ring.
    rewrite (refills_step (m := Deserializer._read_buffer_offset d + size
                               - Deserializer._active_page_size d)) by lia.
    rewrite Hc1, Ha1, Ht1, Hnread1 in Hnread'.
    replace (0 + (size - lead) - Deserializer._target_page_size d)
      with (Deserializer._read_buffer_offset d + size
            - Deserializer._active_page_size d
            - Deserializer._target_page_size d) in Hnread'
      by (subst lead; ring).
    repeat split; try assumption; try congruence; try lia.
    do 2 f_equal. rewrite <- app_assoc. f_equal.
    replace size with (lead + (size - lead)) at 2 by ring.
    rewrite <- stream_slice_app by lia.
    f_equal. unfold stream_slice. rewrite Hbytes1. reflexivity.
Qed.

Lemma reader_page1_loaded :
  reader_loaded reader_page1 (abcdef_stream 4 false (Some 4) 1 1).
Proof.
  unfold reader_loaded, stream_clean. cbv zeta. reader_fields.
  repeat split; try reflexivity; try (vm_compute; congruence).
  exists []. reflexivity.
Qed.

(** ** Reading a file front to back *)

Lemma reader_on_at (d : Deserializer.t) (f : FILE) (q : Z) :
  reader_on d f q -> reader_at d f q.
Proof. intros [H | (H & _)]; [left | right]; assumption. Qed.

(** [read_loop] does not depend on the fuel it is given beyond having
    enough of it. *)
Lemma read_loop_more_fuel (fuel : nat) :
  forall (d : Deserializer.t) (dest : list byte) (size : Z)
         (r : Deserializer.t * list byte * Z) (more : nat),
    Deserializer.read_loop fuel d dest size = Ok r ->
    Deserializer.read_loop (fuel + more) d dest size = Ok r.
Proof.
  induction fuel as [| fuel IH]; intros d dest size r more H.
  - simpl in H.
    destruct (U64.add (Deserializer._read_buffer_offset d) size
              >? Deserializer._active_page_size d) eqn:E; [discriminate |].
    rewrite read_loop_exit by exact E. exact H.
  - cbn [Nat.add Deserializer.read_loop] in *.
    destruct (U64.add (Deserializer._read_buffer_offset d) size
              >? Deserializer._active_page_size d); [| exact H].
    destruct (memcpy _ _ _) as [chunk | | |]; cbn [bind] in *;
      try discriminate.
    destruct (Deserializer._read_page d) as [[d1 n] | | |]; cbn [bind] in *;
      try discriminate.
    destruct ((n <? Deserializer._active_page_size d1) && _);
      [discriminate |].
    apply IH. exact H.
Qed.

Lemma read_more_fuel (fuel more : nat) (d : Deserializer.t) (size : Z)
  (r : Deserializer.t * list byte) :
  Deserializer.read fuel d size = Ok r ->
  Deserializer.read (fuel + more) d size = Ok r.
Proof.
  unfold Deserializer.read. intros H.
  destruct (Deserializer.read_loop fuel d [] size) as [[[d1 dest] sz] | | |]
    eqn:E; try discriminate.
  rewrite (@read_loop_more_fuel fuel d [] size _ more E). exact H.
Qed.

(** Two runs of the same [read] that both return, return the same. *)
Lemma read_fuel_agree (fuel1 fuel2 : nat) (d : Deserializer.t) (size : Z)
  (r1 r2 : Deserializer.t * list byte) :
  Deserializer.read fuel1 d size = Ok r1 ->
  Deserializer.read fuel2 d size = Ok r2 -> r1 = r2.
Proof.
  intros H1 H2.
  apply (@read_more_fuel fuel1 fuel2) in H1.
  apply (@read_more_fuel fuel2 fuel1) in H2.
  rewrite Nat.add_comm in H2. congruence.
Qed.

(** Moving the cursor forward over bytes that are buffered and in the
    stream keeps the reader on the stream. *)
Lemma reader_on_in_page (d : Deserializer.t) (f : FILE) (q size : Z) :
  reader_on d f q -> 0 <= size ->
  Deserializer._read_buffer_offset d + size
  <= Deserializer._active_page_size d ->
  q + size <= len (bytes f) ->
  reader_on (Deserializer.with_read_buffer_offset d
               (Deserializer._read_buffer_offset d + size)) f (q + size).
Proof.
  intros [(Hl & Hq) | (Hs & Ha0 & Hb)] Hsize Hfit Hin.
  - left. split; [| reader_fields; lia].
    unfold reader_loaded in *. cbv zeta in *. reader_fields.
    destruct Hl as (Hf & Hc & HP & Hact & Hbuf & Hbound & Hb & Hcur & He
                    & Hpos & junk & Hpage).
    repeat (split; [first [assumption | lia] |]).
    exists junk. exact Hpage.
  - right.
    destruct Hs as (H1 & H2 & H3 & H4 & H5 & H6 & H7 & H8 & H9 & H10).
    assert (size = 0) by lia. subst size.
    rewrite !Z.add_0_r. split; [| split; reader_fields; assumption].
    unfold reader_sought. reader_fields.
    repeat (split; [first [assumption | lia] |]). lia.
Qed.

(** [read] from a reader that is on the stream, through as many refills as
    it takes: the bytes delivered, and the reader is on the stream
    afterwards. *)
Lemma read_rest_on (fuel : nat) :
  forall (d : Deserializer.t) (f : FILE) (q size : Z) (dest : list byte),
    reader_on d f q -> 0 <= size -> q + size <= len (bytes f) ->
    Deserializer._read_buffer_offset d + size
    - Deserializer._active_page_size d <= Z.of_nat fuel ->
    exists d' f',
      read_rest fuel d dest size = Ok (d', dest ++ stream_slice f q size)
      /\ reader_on d' f' (q + size)
      /\ bytes f' = bytes f.
Proof.
  induction fuel as [| fuel IH]; intros d f q size dest Hon Hsize Hin Hfuel;
    pose proof (reader_on_at Hon) as Hat;
    pose proof (reader_at_facts Hat)
      as (Hf & Hc & HP & Hbuf & Hbound & Hcur & Ha & Hq);
    destruct (Z_le_gt_dec (Deserializer._read_buffer_offset d + size)
                (Deserializer._active_page_size d)) as [Hle | Hgt];
    try lia.
  - destruct (@reader_at_in_page 0 d f q size dest Hat Hsize Hle Hin)
      as (Hrun & _).
    eexists; exists f. split; [exact Hrun |].
    split; [apply reader_on_in_page; assumption | reflexivity].
  - destruct (@reader_at_in_page (S fuel) d f q size dest Hat Hsize Hle Hin)
      as (Hrun & _).
    eexists; exists f. split; [exact Hrun |].
    split; [apply reader_on_in_page; assumption | reflexivity].
  - assert (Hfit : Deserializer._target_page_size d + size < U64.modulus)
      by lia.
    pose proof (reader_at_overshoot Hat Hsize Hfit Hgt) as Hstep.
    pose proof (reader_at_lead Hat Hsize Hgt Hin) as Hlead.
    cbv zeta in Hstep, Hlead.
    set (lead := Deserializer._active_page_size d
                 - Deserializer._read_buffer_offset d) in *.
    destruct Hstep as (Hcond & Hsub & Hrest & Hcopy & Hend).
    destruct Hlead as (Hchunk & Hpos).
    destruct (@refill_loads d f Hf Hc HP Hbuf Hbound Hend)
      as (d1 & f1 & Hpage & Hl1 & Hb1 & Hc1 & Ht1 & Hn1 & Hbytes1 & _);
      [lia |].
    rewrite (@read_rest_refill fuel d d1 dest _ size lead _ Hcond Hsub Hcopy
               Hpage).
    assert (Ha1 : Deserializer._active_page_size d1
                  = Deserializer._target_page_size d).
    { unfold reader_loaded in Hl1. cbv zeta in Hl1.
      destruct Hl1 as (_ & _ & _ & Hact & _). congruence. }
    rewrite Hrest, Ha1.
    replace ((Z.min (Deserializer._target_page_size d) (len (bytes f) - pos f)
              <? Deserializer._target_page_size d)
             && (Z.min (Deserializer._target_page_size d)
                   (len (bytes f) - pos f) <? size - lead)) with false.
    2:{ symmetry. apply andb_false_iff.
        destruct (Z.ltb_spec
                    (Z.min (Deserializer._target_page_size d)
                       (len (bytes f) - pos f))
                    (Deserializer._target_page_size d)); [| auto].
        right. apply Z.ltb_ge. lia. }
    assert (Hon1 : reader_on d1 f1 (q + lead)).
    { left. split; [exact Hl1 | lia]. }
    assert (H0 : 0 <= size - lead) by lia.
    assert (H1 : q + lead + (size - lead) <= len (bytes f1))
      by (rewrite Hbytes1; lia).
    assert (H2 : Deserializer._read_buffer_offset d1 + (size - lead)
                 - Deserializer._active_page_size d1 <= Z.of_nat fuel)
      by (rewrite Hc1, Ha1; lia).
    destruct (IH d1 f1 (q + lead) (size - lead)
                (dest ++ firstn (Z.to_nat lead)
                   (skipn (Z.to_nat (Deserializer._read_buffer_offset d))
                      (Deserializer._read_buffer d))) Hon1 H0 H1 H2)
      as (d' & f' & Hrun & Hon' & Hbytes').
    exists d', f'. rewrite Hrun, Hchunk.
    replace (q + lead + (size - lead)) with (q + size) in Hon' by ring.
    split; [| split; [exact Hon' | congruence]].
    do 2 f_equal. rewrite <- app_assoc. f_equal.
    replace size with (lead + (size - lead)) at 2 by ring.
    rewrite <- stream_slice_app by lia.
    f_equal. unfold stream_slice. rewrite Hbytes1. reflexivity.
Qed.

(** The first [set_offset] of a reader constructed on a freshly opened
    file leaves it positioned there, with no page loaded. *)
Lemma open_on (filename : string) (content : list byte) (fl : Faults)
  (page_size new_offset : Z) (d0 d : Deserializer.t) :
  bad_byte fl = None -> 0 <= page_size ->
  len content + page_size < U64.modulus ->
  0 <= new_offset <= len content ->
  Deserializer.make filename (Some (fopen content fl)) page_size = Ok d0 ->
  Deserializer.set_offset d0 new_offset = Ok d ->
  exists f, reader_on d f new_offset /\ bytes f = content.
Proof.
  intros Hfl Hp Hbound Hn Hmake Hseek.
  unfold Deserializer.make in Hmake.
  destruct (Z.eqb_spec page_size 0) as [E | E]; [discriminate |].
  inversion Hmake; subst d0; clear Hmake.
  unfold Deserializer.set_offset in Hseek. reader_fields.
  replace (new_offset <? U64.add 0 0) with false in Hseek
    by (symmetry; apply Z.ltb_ge; change (U64.add 0 0) with 0; lia).
  rewrite andb_false_r in Hseek. unfold fseek, fopen in Hseek.
  cbn [faults] in Hseek.
  destruct (new_offset <=? seek_max fl); cbn [negb Z.eqb] in Hseek;
    [| discriminate].
  inversion Hseek; subst d.
  exists (mkFILE content new_offset false false None 0 1 0 fl).
  split; [right | reflexivity].
  split; [| split; reflexivity].
  unfold reader_sought, stream_clean. reader_fields. rewrite len_repeat.
  repeat (split; [first [assumption | reflexivity | lia
                        | split; [assumption | reflexivity]] |]).
  lia.
Qed.

(** A [set_offset] that stays inside the buffered page, to a position of
    the stream, keeps the reader on the stream. *)
Lemma set_offset_in_page_on (d d' : Deserializer.t) (f : FILE)
  (q new_offset : Z) :
  reader_on d f q ->
  (Deserializer._file_offset_page_begin d <=? new_offset)
  && (new_offset <? U64.add (Deserializer._file_offset_page_begin d)
                      (Deserializer._active_page_size d)) = true ->
  new_offset <= len (bytes f) ->
  Deserializer.set_offset d new_offset = Ok d' ->
  reader_on d' f new_offset.
Proof.
  intros Hon Hin Hn H. unfold Deserializer.set_offset in H.
  rewrite Hin in H. inversion H; subst d'; clear H.
  apply andb_true_iff in Hin. destruct Hin as (Hlo & Hhi).
  apply Z.leb_le in Hlo. apply Z.ltb_lt in Hhi.
  destruct Hon as [(Hl & Hq) | (Hs & Ha0 & Hb)].
  - unfold reader_loaded in Hl. cbv zeta in Hl.
    destruct Hl as (Hf & Hclean & HP & Ha & Hbuf & Hbound & Hb & Hcur
                    & He & Hpos & junk & Hpage).
    rewrite Ha, add_small in Hhi by (unfold U64.fits; lia).
    rewrite sub_small by (unfold U64.fits; lia).
    left. split; [| reader_fields; lia].
    unfold reader_loaded. cbv zeta. reader_fields.
    repeat (split; [first [assumption | lia] |]).
    exists junk. exact Hpage.
  - destruct Hs as (_ & _ & HP & _ & Hbound & _ & _ & _ & _ & Hq).
    rewrite Ha0, Hb, add_0_r in Hhi by (unfold U64.fits; lia). lia.
Qed.

(** A reader used front to back is on the stream over the file's
    contents. *)
Lemma sequential_on (content : list byte) (d : Deserializer.t) (q : Z) :
  sequential content d q -> exists f, reader_on d f q /\ bytes f = content.
Proof.
  induction 1 as [filename fl page_size new_offset d0 d Hfl Hp Hbound Hn
                    Hmake Hseek
                 | fuel d d' q size out Hrun IH Hsize Hin Hread
                 | d d' q new_offset Hrun IH Hin Hn Hseek].
  - eapply open_on; eassumption.
  - destruct IH as (f & Hon & Hbytes).
    pose proof (reader_at_facts (reader_on_at Hon))
      as (_ & _ & _ & _ & _ & Hcur & _).
    destruct (@read_rest_on (Z.to_nat size) d f q size [] Hon Hsize)
      as (d1 & f1 & Hrun1 & Hon1 & Hbytes1); try (rewrite ?Hbytes; lia).
    rewrite <- read_is_read_rest in Hrun1.
    pose proof (@read_fuel_agree _ _ _ _ _ _ Hread Hrun1) as E.
    inversion E; subst d' out.
    exists f1. split; [exact Hon1 | congruence].
  - destruct IH as (f & Hon & Hbytes).
    exists f. split; [| exact Hbytes].
    eapply set_offset_in_page_on; try eassumption. rewrite Hbytes. exact Hn.
Qed.

(** For a reader on the stream [get_offset] reports the position of the
    next byte. *)
Lemma reader_on_get_offset (d : Deserializer.t) (f : FILE) (q : Z) :
  reader_on d f q -> Deserializer.get_offset d = q.
Proof.
  unfold Deserializer.get_offset.
  intros [(Hl & Hq) | (Hs & Ha0 & Hb)].
  - unfold reader_loaded in Hl. cbv zeta in Hl.
    destruct Hl as (_ & _ & HP & _ & _ & Hbound & Hb & Hcur & _).
    rewrite Hq. apply add_small. unfold U64.fits. lia.
  - destruct Hs as (_ & _ & HP & _ & Hbound & _ & Hc & _ & _ & Hq).
    rewrite Hc, Ha0, Hb. apply add_0_r. unfold U64.fits. lia.
Qed.

(** For a reader used front to back [get_offset] reports the position of
    the next byte. *)
Lemma sequential_get_offset (content : list byte) (d : Deserializer.t)
  (q : Z) :
  sequential content d q -> Deserializer.get_offset d = q.
Proof.
  intros Hrun. destruct (sequential_on Hrun) as (f & Hon & _).
  exact (reader_on_get_offset Hon).
Qed.

(** The next [read] of a reader used front to back returns the bytes of
    the file from its position. *)
Lemma sequential_read_bytes (content : list byte) (d : Deserializer.t)
  (q size : Z) (fuel : nat) :
  sequential content d q -> 0 <= size -> q + size <= len content ->
  size <= Z.of_nat fuel ->
  exists d',
    Deserializer.read fuel d size = Ok (d', slice content q size)
    /\ sequential content d' (q + size).
Proof.
  intros Hrun Hsize Hin Hfuel.
  destruct (sequential_on Hrun) as (f & Hon & Hbytes).
  pose proof (reader_at_facts (reader_on_at Hon))
    as (_ & _ & _ & _ & _ & Hcur & _).
  destruct (@read_rest_on fuel d f q size [] Hon Hsize)
    as (d' & f' & Hread & _); try (rewrite ?Hbytes; lia).
  rewrite <- read_is_read_rest in Hread.
  unfold stream_slice in Hread. rewrite Hbytes in Hread. cbn [app] in Hread.
  exists d'. split; [exact Hread |].
  eapply sequential_read; eassumption.
Qed.

(** The reader [reader_page1] is reached front to back. *)
Lemma reader_page1_run : sequential abcdef reader_page1 3.
Proof.
  change 3 with (0 + 3).
  apply (@sequential_read abcdef 3
           (Deserializer.mk (Some (abcdef_stream 0 false None 0 1)) 4 0 0 0 0
              "in.bin" (repeat x00 4))
           reader_page1 0 3 [x41; x42; x43]);
    [| lia | vm_compute; congruence | reflexivity].
  apply (@sequential_open abcdef "in.bin" no_faults 4 0 reader_made);
    first [reflexivity | lia | vm_compute; split; congruence].
Qed.

(** X7.  A reader used front to back returns from each [read] the bytes of
    the file that follow the ones it returned before: a [read] of [size]
    bytes at position [q], all of them in the file, returns the bytes
    [q, q + size) of the file, across page boundaries and the short final
    page, and leaves the reader at [q + size], which is also what
    [get_offset] then reports. *)
Theorem read_returns_stream_bytes
  (content : list byte) (d : Deserializer.t) (q size : Z) (fuel : nat)
  (Hrun : sequential content d q) (Hsize : 0 <= size)
  (Hin : q + size <= len content)
  (Hfuel : size <= Z.of_nat fuel) :
  exists d',
    Deserializer.read fuel d size = Ok (d', slice content q size)
    /\ sequential content d' (q + size)
    /\ Deserializer.get_offset d' = q + size.
Proof.
  destruct (@sequential_read_bytes content d q size fuel Hrun Hsize Hin
              Hfuel) as (d' & Hread & Hrun').
  exists d'. split; [exact Hread |]. split; [exact Hrun' |].
  exact (sequential_get_offset Hrun').
Qed.

Lemma read_returns_stream_bytes_witness :
  exists d',
    Deserializer.read 3 reader_page1 3 = Ok (d', slice abcdef 3 3)
    /\ sequential abcdef d' (3 + 3)
    /\ Deserializer.get_offset d' = 3 + 3.
Proof.
  apply (@read_returns_stream_bytes abcdef reader_page1 3 3 3
           reader_page1_run).
  - lia.
  - vm_compute. congruence.
  - lia.
Defined.

(** X8.  A [read] of [size] bytes by a reader that has just sought, with
    the bytes all in the stream, calls [fread] once per page touched:
    [size / page size], rounded up, times; and it does not seek. *)
Theorem read_refill_count
  (fuel : nat) (d : Deserializer.t) (f : FILE) (q size : Z)
  (Hs : reader_sought d f q) (Hsize : 0 <= size)
  (Hin : q + size <= len (bytes f))
  (Hfuel : size <= Z.of_nat fuel) :
  exists d' f' out,
    Deserializer.read fuel d size = Ok (d', out)
    /\ Deserializer._file d' = Some f'
    /\ Z.of_nat (nread f')
       = Z.of_nat (nread f)
         + (size + Deserializer._target_page_size d - 1)
           / Deserializer._target_page_size d
    /\ nseek f' = nseek f.
Proof.
  assert (Hat : reader_at d f q) by (right; exact Hs).
  destruct Hs as (_ & _ & HP & _ & _ & _ & Hcur & _).
  destruct (@read_rest_at fuel d f q size [] Hat Hsize Hin)
    as (d' & f' & Hrun & Hat' & _ & Hnread & Hnseek & _); [lia |].
  pose proof (reader_at_facts Hat') as (Hf' & _).
  exists d', f'. eexists. rewrite read_is_read_rest.
  split; [exact Hrun |]. split; [exact Hf' |]. split; [| exact Hnseek].
  rewrite Hnread. f_equal. unfold refills.
  replace (Deserializer._read_buffer_offset d + size
           - Deserializer._active_page_size d) with size by lia.
  destruct (Z.leb_spec size 0) as [H0 | H0].
  - assert (size = 0) by lia. subst size.
    symmetry. apply Z.div_small. lia.
  - replace (size + Deserializer._target_page_size d - 1)
      with (size - 1 + 1 * Deserializer._target_page_size d) by ring.
    rewrite Z_div_plus_full by lia. reflexivity.
Qed.

Lemma pair_reader_sought_at :
  reader_sought pair_reader_sought
    (mkFILE (bytes pair_file) 3 false false None 0 1 0 no_faults) 3.
Proof.
  unfold reader_sought, stream_clean. reader_fields.
  repeat split; try reflexivity; vm_compute; congruence.
Qed.

Lemma read_refill_count_witness :
  exists d' f' out,
    Deserializer.read 2 pair_reader_sought 2 = Ok (d', out)
    /\ Deserializer._file d' = Some f'
    /\ Z.of_nat (nread f') = Z.of_nat 0 + (2 + 1 - 1) / 1
    /\ nseek f' = 1%nat.
Proof.
  apply (@read_refill_count 2 pair_reader_sought
           (mkFILE (bytes pair_file) 3 false false None 0 1 0 no_faults) 3 2
           pair_reader_sought_at);
    first [lia | vm_compute; congruence].
Defined.

(** ** Seeking and reading *)

(** X9.  Random access inside the buffered page: for a reader used front
    to back, a [set_offset] to a position inside the buffered page
    succeeds without touching the stream, and the [read] after it returns
    the bytes of the file from that position. *)
Theorem set_offset_then_read
  (content : list byte) (d : Deserializer.t) (q new_offset size : Z)
  (fuel : nat)
  (Hrun : sequential content d q)
  (Hpage : (Deserializer._file_offset_page_begin d <=? new_offset)
           && (new_offset <? U64.add (Deserializer._file_offset_page_begin d)
                               (Deserializer._active_page_size d)) = true)
  (Hsize : 0 <= size)
  (Hin : new_offset + size <= len content)
  (Hfuel : size <= Z.of_nat fuel) :
  exists d1 d2,
    Deserializer.set_offset d new_offset = Ok d1
    /\ Deserializer._file d1 = Deserializer._file d
    /\ Deserializer.read fuel d1 size
       = Ok (d2, slice content new_offset size)
    /\ Deserializer.get_offset d2 = new_offset + size.
Proof.
  assert (Hseek : Deserializer.set_offset d new_offset
                  = Ok (Deserializer.with_read_buffer_offset d
                          (U64.sub new_offset
                             (Deserializer._file_offset_page_begin d)))).
  { unfold Deserializer.set_offset. rewrite Hpage. reflexivity. }
  assert (Hrun1 : sequential content
                    (Deserializer.with_read_buffer_offset d
                       (U64.sub new_offset
                          (Deserializer._file_offset_page_begin d)))
                    new_offset).
  { eapply sequential_set_offset; try eassumption. lia. }
  destruct (@sequential_read_bytes content _ new_offset size fuel Hrun1
              Hsize Hin Hfuel) as (d2 & Hread & Hrun2).
  eexists. exists d2. split; [exact Hseek |]. split; [reflexivity |].
  split; [exact Hread |]. exact (sequential_get_offset Hrun2).
Qed.

Lemma set_offset_then_read_witness :
  exists d1 d2,
    Deserializer.set_offset reader_page1 1 = Ok d1
    /\ Deserializer._file d1 = Deserializer._file reader_page1
    /\ Deserializer.read 2 d1 2 = Ok (d2, slice abcdef 1 2)
    /\ Deserializer.get_offset d2 = 1 + 2.
Proof.
  apply (@set_offset_then_read abcdef reader_page1 3 1 2 2 reader_page1_run).
  - reflexivity.
  - lia.
  - vm_compute. congruence.
  - lia.
Defined.

(** X10.  Open, seek, read: a reader constructed on a freshly opened file
    and positioned with [set_offset] returns from its first [read] the
    bytes of the file from that position, whatever the page size, and
    [get_offset] then reports the position behind them. *)
Theorem make_set_offset_read
  (fuel : nat) (filename : string) (content : list byte) (fl : Faults)
  (page_size new_offset size : Z) (d0 d1 : Deserializer.t)
  (Hfl : bad_byte fl = None) (Hp : 0 <= page_size)
  (Hbound : len content + page_size < U64.modulus)
  (Hn : 0 <= new_offset) (Hsize : 0 <= size)
  (Hin : new_offset + size <= len content)
  (Hfuel : size <= Z.of_nat fuel)
  (Hmake : Deserializer.make filename (Some (fopen content fl)) page_size
           = Ok d0)
  (Hseek : Deserializer.set_offset d0 new_offset = Ok d1) :
  exists d2,
    Deserializer.read fuel d1 size = Ok (d2, slice content new_offset size)
    /\ Deserializer.get_offset d2 = new_offset + size.
Proof.
  assert (Hrun : sequential content d1 new_offset).
  { apply (@sequential_open content filename fl page_size new_offset d0 d1);
      first [assumption | lia]. }
  destruct (@sequential_read_bytes content d1 new_offset size fuel Hrun
              Hsize Hin Hfuel) as (d2 & Hread & Hrun2).
  exists d2. split; [exact Hread |]. exact (sequential_get_offset Hrun2).
Qed.

Lemma make_set_offset_read_witness :
  exists d2,
    Deserializer.read 2 pair_reader_sought 2
    = Ok (d2, slice (bytes pair_file) 3 2)
    /\ Deserializer.get_offset d2 = 3 + 2.
Proof.
  apply (@make_set_offset_read 2 "out.bin" (bytes pair_file) no_faults
           1 3 2 pair_reader_made pair_reader_sought);
    first [lia | reflexivity | vm_compute; congruence].
Defined.



(** X12.  A [set_offset] that follows a seeking [set_offset(q)] and targets
    a position less than [_active_page_size] above [q] takes the fast
    path, and the [read] after it is served without consulting the stream:
    the stream, its call counters included, is as the first seek left it,
    so the bytes returned were not read from the position sought. *)
Theorem seek_after_seek_skips_stream
  (fuel : nat) (d0 d1 : Deserializer.t) (q p size : Z)
  (Hd : reader_typed d0) (Hq : U64.fits q) (Hp : U64.fits p)
  (Hbuf : Deserializer._active_page_size d0
          <= len (Deserializer._read_buffer d0))
  (Hfit : q + Deserializer._active_page_size d0 < U64.modulus)
  (Hslow : (Deserializer._file_offset_page_begin d0 <=? q)
           && (q <? U64.add (Deserializer._file_offset_page_begin d0)
                            (Deserializer._active_page_size d0)) = false)
  (Hseek : Deserializer.set_offset d0 q = Ok d1)
  (Hlo : q <= p) (Hsize : 0 < size)
  (Hhi : p + size <= q + Deserializer._active_page_size d0) :
  exists d2 d3 out,
    Deserializer.set_offset d1 p = Ok d2
    /\ Deserializer.read fuel d2 size = Ok (d3, out)
    /\ Deserializer._file d2 = Deserializer._file d1
    /\ Deserializer._file d3 = Deserializer._file d1
    /\ Deserializer._file_offset_page_begin d3 = q
    /\ Deserializer._read_buffer_offset d3 = p - q + size
    /\ len out = size.
Proof.
  destruct Hd as (_ & Ha & _).
  unfold Deserializer.set_offset in Hseek. rewrite Hslow in Hseek.
  destruct (Deserializer._file d0) as [f |]; [| discriminate].
  destruct (fseek f q) as [ret f'].
  destruct (negb (ret =? 0)); [discriminate |].
  inversion Hseek; subst d1; clear Hseek.
  eexists. eexists. eexists.
  split.
  { unfold Deserializer.set_offset. reader_fields.
    rewrite add_small by (unfold U64.fits in *; lia).
    replace (q <=? p) with true by (symmetry; apply Z.leb_le; lia).
    replace (p <? q + Deserializer._active_page_size d0) with true
      by (symmetry; apply Z.ltb_lt; lia).
    cbn [andb]. rewrite sub_small by (unfold U64.fits in *; lia).
    reflexivity. }
  split.
  { unfold Deserializer.read. rewrite read_loop_exit.
    - cbn [bind]. unfold memcpy. reader_fields.
      replace (p - q + size <=? len (Deserializer._read_buffer d0)) with true
        by (symmetry; apply Z.leb_le; lia).
      cbn [bind]. rewrite add_small by (unfold U64.fits in *; lia).
      reflexivity.
    - reader_fields. rewrite add_small by (unfold U64.fits in *; lia).
      destruct (Z.gtb_spec (p - q + size) (Deserializer._active_page_size d0));
        [lia | reflexivity]. }
  reader_fields. repeat (split; [reflexivity |]). cbn [app].
  rewrite len_firstn_min, len_skipn by (unfold U64.fits in *; lia). lia.
Qed.

Lemma seek_after_seek_skips_stream_witness :
  exists d2 d3 out,
    Deserializer.set_offset
      (Deserializer.mk (Some (abcdef_stream 4 false (Some 4) 1 2)) 4 4 4 4 4
         "in.bin" [x41; x42; x43; x44]) 5 = Ok d2
    /\ Deserializer.read 1 d2 1 = Ok (d3, out)
    /\ Deserializer._file d2 = Some (abcdef_stream 4 false (Some 4) 1 2)
    /\ Deserializer._file d3 = Some (abcdef_stream 4 false (Some 4) 1 2)
    /\ Deserializer._file_offset_page_begin d3 = 4
    /\ Deserializer._read_buffer_offset d3 = 5 - 4 + 1
    /\ len out = 1.
Proof.
  apply (@seek_after_seek_skips_stream 1 reader_page1
           (Deserializer.mk (Some (abcdef_stream 4 false (Some 4) 1 2)) 4 4 4 4
              4 "in.bin" [x41; x42; x43; x44]) 4 5 1);
    first [reflexivity | lia | vm_compute; congruence
          | unfold reader_typed, U64.fits; simpl; repeat split; vm_compute;
            congruence
          | vm_compute; split; congruence ].
Defined.

(** ** Reads past the end of the data *)

Lemma read_rest_past_end (fuel : nat) :
  forall (d : Deserializer.t) (f : FILE) (q size : Z) (dest : list byte),
    reader_at d f q -> 0 <= size ->
    Deserializer._target_page_size d + size < U64.modulus ->
    Deserializer._read_buffer_offset d + size
    > Deserializer._active_page_size d ->
    pos f + (size - (Deserializer._active_page_size d
                     - Deserializer._read_buffer_offset d))
    > len (bytes f) ->
    Deserializer._read_buffer_offset d + size
    - Deserializer._active_page_size d <= Z.of_nat fuel ->
    read_rest fuel d dest size
    = Throw (ReadException (Deserializer._filename d)
               (Some "not enough remaining bytes at current offset"%string)).
Proof.
  induction fuel as [| fuel IH];
    intros d f q size dest Hat Hsize Hfit Hgt Hpast Hfuel; [simpl in Hfuel; lia |].
  pose proof (reader_at_facts Hat)
    as (Hf & Hc & HP & Hbuf & Hbound & Hcur & Ha & Hq).
  pose proof (reader_at_overshoot Hat Hsize Hfit Hgt) as Hstep.
  cbv zeta in Hstep.
  set (lead := Deserializer._active_page_size d
               - Deserializer._read_buffer_offset d) in *.
  destruct Hstep as (Hcond & Hsub & Hrest & Hcopy & Hend).
  assert (Hposf : 0 <= pos f <= len (bytes f)).
  { destruct Hat as [(Hl & _) | Hs].
    - unfold reader_loaded in Hl. cbv zeta in Hl.
      destruct Hl as (_ & _ & _ & _ & _ & _ & Hb & _ & _ & Hpos & _). lia.
    - destruct Hs as (_ & _ & _ & _ & _ & _ & _ & _ & Hpos & Hq'). lia. }
  destruct (@refill_loads d f Hf Hc HP Hbuf Hbound Hend Hposf)
    as (d1 & f1 & Hpage & Hl1 & Hb1 & Hc1 & Ht1 & Hn1 & Hbytes1 & _).
  rewrite (@read_rest_refill fuel d d1 dest _ size lead _ Hcond Hsub Hcopy
             Hpage).
  assert (Ha1 : Deserializer._active_page_size d1
                = Deserializer._target_page_size d).
  { unfold reader_loaded in Hl1. cbv zeta in Hl1.
    destruct Hl1 as (_ & _ & _ & Hact & _). congruence. }
  rewrite Hrest, Ha1, Hn1.
  destruct (Z.ltb_spec
              (Z.min (Deserializer._target_page_size d)
                 (len (bytes f) - pos f))
              (Deserializer._target_page_size d)) as [Hshort | Hfull];
    cbn [andb].
  - replace (Z.min (Deserializer._target_page_size d) (len (bytes f) - pos f)
             <? size - lead) with true
      by (symmetry; apply Z.ltb_lt; lia).
    reflexivity.
  - assert (Hat1 : reader_at d1 f1 (pos f)).
    { left. split; [exact Hl1 | lia]. }
    assert (Hpos1 : pos f1 = pos f + Deserializer._target_page_size d).
    { unfold reader_loaded in Hl1. cbv zeta in Hl1.
      destruct Hl1 as (_ & _ & _ & _ & _ & _ & _ & _ & _ & Hp1 & _).
      rewrite Hp1, Hb1, Ht1, Hbytes1. lia. }
    rewrite <- Hn1.
    assert (H0 : 0 <= size - lead) by lia.
    assert (H1 : Deserializer._target_page_size d1 + (size - lead)
                 < U64.modulus) by (rewrite Ht1; lia).
    assert (H2 : Deserializer._read_buffer_offset d1 + (size - lead)
                 > Deserializer._active_page_size d1)
      by (rewrite Hc1, Ha1; lia).
    assert (H3 : pos f1 + (size - lead
                           - (Deserializer._active_page_size d1
                              - Deserializer._read_buffer_offset d1))
                 > len (bytes f1))
      by (rewrite Hc1, Ha1, Hpos1, Hbytes1; lia).
    assert (H4 : Deserializer._read_buffer_offset d1 + (size - lead)
                 - Deserializer._active_page_size d1 <= Z.of_nat fuel)
      by (rewrite Hc1, Ha1; lia).
    exact (IH d1 f1 (pos f) (size - lead) _ Hat1 H0 H1 H2 H3 H4).
Qed.

(** X13.  Short-page rejection: a [read] that asks for more bytes than the
    stream holds from the reader's position, and more than are left in the
    active page, throws the [ReadException] "not enough remaining bytes at
    current offset". *)
Theorem read_past_end_throws
  (fuel : nat) (d : Deserializer.t) (f : FILE) (q size : Z)
  (Hat : reader_at d f q) (Hsize : 0 <= size)
  (Hfit : Deserializer._target_page_size d + size < U64.modulus)
  (Hover : Deserializer._read_buffer_offset d + size
           > Deserializer._active_page_size d)
  (Hpast : q + size > len (bytes f))
  (Hfuel : size <= Z.of_nat fuel) :
  Deserializer.read fuel d size
  = Throw (ReadException (Deserializer._filename d)
             (Some "not enough remaining bytes at current offset"%string)).
Proof.
  pose proof (reader_at_facts Hat) as (_ & _ & _ & _ & _ & Hcur & _).
  rewrite read_is_read_rest.
  apply read_rest_past_end with (f := f) (q := q); try assumption; try lia.
  destruct Hat as [(Hl & Hq) | Hs].
  - unfold reader_loaded in Hl. cbv zeta in Hl.
    destruct Hl as (_ & _ & _ & Ha & _ & _ & Hb & Hcn & _ & Hpos & _). lia.
  - destruct Hs as (_ & _ & _ & _ & _ & _ & Hceq & _ & Hpos & _). lia.
Qed.

Lemma read_past_end_throws_witness :
  Deserializer.read 4 reader_page1 4
  = Throw (ReadException "in.bin"
             (Some "not enough remaining bytes at current offset"%string)).
Proof.
  apply (@read_past_end_throws 4 reader_page1
           (abcdef_stream 4 false (Some 4) 1 1) 3 4).
  - left. split; [exact reader_page1_loaded | reflexivity].
  - lia.
  - vm_compute. congruence.
  - vm_compute. congruence.
  - vm_compute. congruence.
  - lia.
Defined.

(** ** Reads served from the buffer *)

Lemma read_from_buffer
  (fuel : nat) (d : Deserializer.t) (size : Z)
  (Hcur : 0 <= Deserializer._read_buffer_offset d) (Hsize : 0 <= size)
  (Hin : Deserializer._read_buffer_offset d + size
         <= Deserializer._active_page_size d)
  (Hbuf : Deserializer._active_page_size d
          <= len (Deserializer._read_buffer d))
  (Hfit : Deserializer._active_page_size d < U64.modulus) :
  Deserializer.read fuel d size
  = Ok (Deserializer.with_read_buffer_offset d
          (Deserializer._read_buffer_offset d + size),
        firstn (Z.to_nat size)
          (skipn (Z.to_nat (Deserializer._read_buffer_offset d))
             (Deserializer._read_buffer d))).
Proof.
  assert (Hadd : U64.add (Deserializer._read_buffer_offset d) size
                 = Deserializer._read_buffer_offset d + size)
    by (apply add_small; unfold U64.fits; lia).
  unfold Deserializer.read. rewrite read_loop_exit.
  - cbn [bind]. unfold memcpy.
    replace (Deserializer._read_buffer_offset d + size
             <=? len (Deserializer._read_buffer d)) with true
      by (symmetry; apply Z.leb_le; lia).
    cbn [bind]. rewrite Hadd. reflexivity.
  - rewrite Hadd.
    destruct (Z.gtb_spec (Deserializer._read_buffer_offset d + size)
                (Deserializer._active_page_size d)); [lia | reflexivity].
Qed.

(** X14.  A [read] that fits in what is left of the active page is served
    from the buffer alone: it returns the buffer bytes under the cursor,
    advances the cursor by the size, and leaves the stream and every other
    member as they were, whatever the fuel. *)
Theorem read_within_page
  (fuel : nat) (d : Deserializer.t) (size : Z)
  (Hcur : 0 <= Deserializer._read_buffer_offset d) (Hsize : 0 <= size)
  (Hin : Deserializer._read_buffer_offset d + size
         <= Deserializer._active_page_size d)
  (Hbuf : Deserializer._active_page_size d
          <= len (Deserializer._read_buffer d))
  (Hfit : Deserializer._active_page_size d < U64.modulus) :
  Deserializer.read fuel d size
  = Ok (Deserializer.with_read_buffer_offset d
          (Deserializer._read_buffer_offset d + size),
        firstn (Z.to_nat size)
          (skipn (Z.to_nat (Deserializer._read_buffer_offset d))
             (Deserializer._read_buffer d)))
  /\ Deserializer._file
       (Deserializer.with_read_buffer_offset d
          (Deserializer._read_buffer_offset d + size))
     = Deserializer._file d.
Proof.
  split; [| reflexivity].
  apply read_from_buffer; assumption.
Qed.

Lemma read_within_page_witness :
  Deserializer.read 0 reader_page2 2
  = Ok (Deserializer.with_read_buffer_offset reader_page2 (2 + 2),
        [x43; x44]).
Proof.
  apply (@read_within_page 0 reader_page2 2); vm_compute; congruence.
Defined.



(** * Release and ownership *)

(** X16.  A destructor leaves the collector as it was when there is nothing
    to report: when the object holds no handle (it was moved from), or when
    [fclose] succeeds. *)
Theorem destroy_without_failure
  (s : Serializer.t) (d : Deserializer.t)
  (exceptions : DestructorExceptions.t)
  (Hs : match Serializer._file s with
        | Some f => fclose f = 0
        | None => True
        end)
  (Hd : match Deserializer._file d with
        | Some f => fclose f = 0
        | None => True
        end) :
  Serializer.destroy s exceptions = Ok exceptions
  /\ Deserializer.destroy d exceptions = Ok exceptions.
Proof.
  unfold Serializer.destroy, Serializer._close, Deserializer.destroy,
    Deserializer._close.
  split.
  - destruct (Serializer._file s) as [f |]; [| reflexivity].
    rewrite Hs. reflexivity.
  - destruct (Deserializer._file d) as [f |]; [| reflexivity].
    rewrite Hd. reflexivity.
Qed.

Lemma destroy_without_failure_witness :
  Serializer.destroy writer_at4 DestructorExceptions.empty
  = Ok DestructorExceptions.empty
  /\ Deserializer.destroy reader_page1 DestructorExceptions.empty
     = Ok DestructorExceptions.empty.
Proof.
  apply (@destroy_without_failure writer_at4 reader_page1
           DestructorExceptions.empty); reflexivity.
Defined.

(** X17.  A move constructor hands the handle over: the new object is
    destroyed as the original would have been, and destroying the
    moved-from object closes nothing and reports nothing, even for a
    handle whose [fclose] fails. *)
Theorem move_hands_over_handle
  (s : Serializer.t) (d : Deserializer.t) (residue : string)
  (residue_buffer : list byte) (exceptions : DestructorExceptions.t) :
  Serializer.destroy (fst (move_serializer s residue)) exceptions
  = Serializer.destroy s exceptions
  /\ Serializer.destroy (snd (move_serializer s residue)) exceptions
     = Ok exceptions
  /\ Deserializer.destroy (fst (move_deserializer d residue residue_buffer))
       exceptions
     = Deserializer.destroy d exceptions
  /\ Deserializer.destroy (snd (move_deserializer d residue residue_buffer))
       exceptions
     = Ok exceptions.
Proof.
  destruct s, d. repeat split.
Qed.

(** X18.  Move assignment closes the handle the target held before taking
    over the other object's: when that [fclose] fails, the
    [CloseException] reaches the [noexcept] boundary and the program is
    terminated; nothing is added to any collector. *)
Theorem move_assign_close_failure_terminates
  (s other : Serializer.t) (d other' : Deserializer.t) (fs fd : FILE)
  (residue : string) (residue_buffer : list byte)
  (Hs : Serializer._file s = Some fs) (Hfs : fclose fs <> 0)
  (Hd : Deserializer._file d = Some fd) (Hfd : fclose fd <> 0) :
  move_assign_serializer s other residue = Terminated
  /\ move_assign_deserializer d other' residue residue_buffer = Terminated.
Proof.
  unfold move_assign_serializer, Serializer._close,
    move_assign_deserializer, Deserializer._close.
  rewrite Hs, Hd, (fclose_fails fs Hfs), (fclose_fails fd Hfd).
  split; reflexivity.
Qed.

Lemma move_assign_close_failure_terminates_witness :
  move_assign_serializer example_writer writer_at4 EmptyString = Terminated
  /\ move_assign_deserializer example_reader reader_page1 EmptyString []
     = Terminated.
Proof.
  apply (@move_assign_close_failure_terminates example_writer writer_at4
           example_reader reader_page1
           (fopen [] failing_close) (fopen [] failing_close) EmptyString []);
    solve [reflexivity | discriminate].
Defined.

(** * Aligned reads over aligned pages *)

Lemma round_up_pad (q a : Z) :
  0 < a -> round_up q a = q + (a - q mod a) mod a.
Proof.
  intros Ha. unfold round_up.
  pose proof (Z.mod_pos_bound q a Ha) as Hm.
  destruct (Z.eqb_spec (q mod a) 0) as [E | E].
  - rewrite E, Z.sub_0_r, Z_mod_same_full. lia.
  - rewrite (Z.mod_small (a - q mod a) a) by lia. reflexivity.
Qed.

Lemma mod_add_multiple (b c a : Z) :
  0 < a -> (a | b) -> (b + c) mod a = c mod a.
Proof.
  intros Ha (k & ->). rewrite Z.add_comm. apply Z_mod_plus_full.
Qed.

(** Padding a cursor inside a page whose size is a multiple of the
    alignment stays inside the page. *)
Lemma pad_stays_in_page (c a P : Z) :
  0 < a -> 0 <= c <= P -> (a | P) -> c + (a - c mod a) mod a <= P.
Proof.
  intros Ha Hc (k & ->).
  rewrite <- round_up_pad by exact Ha.
  pose proof (@round_up_spec c a Ha) as (Hmod & Hrange).
  apply Z.mod_divide in Hmod; [| lia]. destruct Hmod as (j & Hj).
  rewrite Hj in *.
  assert (j <= k); [| nia].
  destruct (Z_le_gt_dec j k) as [H | H]; [exact H | nia].
Qed.

(** A multiple of the alignment is its own rounding. *)
Lemma round_up_multiple (q a : Z) : 0 < a -> (a | q) -> round_up q a = q.
Proof.
  intros Ha Hdiv. unfold round_up.
  apply Z.mod_divide in Hdiv; [| lia]. rewrite Hdiv. reflexivity.
Qed.

(** The padding step of [read_aligned] for a reader on the stream whose
    page begins at, and whose page size is, a multiple of the alignment:
    the reader moves to the next multiple of the alignment in the stream,
    without a refill. *)
Lemma skip_padding_on (d : Deserializer.t) (f : FILE) (q alignment : Z) :
  reader_on d f q -> 0 < alignment -> U64.fits alignment ->
  (alignment | Deserializer._target_page_size d) ->
  (alignment | Deserializer._file_offset_page_begin d) ->
  round_up q alignment <= len (bytes f) ->
  exists d1,
    Deserializer.skip_padding d alignment = Ok d1
    /\ reader_on d1 f (round_up q alignment)
    /\ Deserializer._file d1 = Deserializer._file d.
Proof.
  intros Hon Ha Hfit HdivP Hdivb Hin.
  rewrite (skip_padding_effect d Ha Hfit). cbv zeta.
  destruct Hon as [(Hl & Hq) | (Hs & Ha0 & Hb)].
  - pose proof Hl as Hl0. unfold reader_loaded in Hl. cbv zeta in Hl.
    destruct Hl as (Hf & Hclean & HP & Hact & Hbuf & Hbound & Hb & Hcur
                    & He & Hpos & junk & Hpage).
    subst q. rewrite round_up_pad in * by exact Ha.
    rewrite mod_add_multiple in * by assumption.
    set (pad := (alignment - Deserializer._read_buffer_offset d mod alignment)
                mod alignment) in *.
    assert (Hpad : 0 <= pad < alignment) by (apply Z.mod_pos_bound; exact Ha).
    assert (Hstay : Deserializer._read_buffer_offset d + pad
                    <= Deserializer._target_page_size d)
      by (apply pad_stays_in_page; [exact Ha | lia | exact HdivP]).
    destruct (Z.eqb_spec pad 0) as [E | E].
    + exists d. split; [reflexivity |]. split; [| reflexivity].
      left. split; [exact Hl0 | lia].
    + rewrite add_small by (unfold U64.fits; lia). rewrite Hact.
      destruct (Z.gtb_spec (Deserializer._read_buffer_offset d + pad)
                  (Deserializer._target_page_size d)) as [Hgt | _]; [lia |].
      eexists. split; [reflexivity |]. split; [| reflexivity].
      left. split; [| reader_fields; lia].
      unfold reader_loaded. cbv zeta. reader_fields.
      repeat (split; [first [assumption | lia] |]).
      exists junk. exact Hpage.
  - pose proof Hs as (_ & _ & _ & _ & _ & _ & Hc & _).
    rewrite Hb in Hdivb.
    rewrite Hc, Ha0, Z.mod_0_l, Z.sub_0_r, Z_mod_same_full by lia.
    cbn [Z.eqb]. exists d. split; [reflexivity |]. split; [| reflexivity].
    rewrite round_up_multiple by assumption.
    right. auto.
Qed.

(** [read_aligned] by a reader used front to back whose page begins at,
    and whose page size is, a multiple of the alignment. *)
Lemma read_aligned_sequential (content : list byte) (d : Deserializer.t)
  (q size alignment : Z) (fuel : nat) :
  sequential content d q -> 0 < alignment -> U64.fits alignment ->
  (alignment | Deserializer._target_page_size d) ->
  (alignment | Deserializer._file_offset_page_begin d) ->
  0 <= size -> round_up q alignment + size <= len content ->
  size <= Z.of_nat fuel ->
  exists d',
    Deserializer.read_aligned fuel d size alignment
    = Ok (d', slice content (round_up q alignment) size)
    /\ Deserializer.get_offset d' = round_up q alignment + size.
Proof.
  intros Hrun Ha Hfit HdivP Hdivb Hsize Hin Hfuel.
  destruct (sequential_on Hrun) as (f & Hon & Hbytes).
  destruct (@skip_padding_on d f q alignment Hon Ha Hfit HdivP Hdivb)
    as (d1 & Hskip & Hon1 & _); [rewrite Hbytes; lia |].
  pose proof (reader_at_facts (reader_on_at Hon1))
    as (_ & _ & _ & _ & _ & Hcur & _).
  destruct (@read_rest_on fuel d1 f (round_up q alignment) size [] Hon1 Hsize)
    as (d' & f' & Hread & Hon' & _); try (rewrite ?Hbytes; lia).
  exists d'. unfold Deserializer.read_aligned. rewrite Hskip. cbn [bind].
  rewrite read_is_read_rest, Hread. unfold stream_slice. rewrite Hbytes.
  split; [reflexivity |]. exact (reader_on_get_offset Hon').
Qed.

(** The reader [aligned_reader] is reached front to back. *)
Lemma aligned_reader_run : sequential aligned_sample aligned_reader 4.
Proof.
  change 4 with (0 + 4).
  apply (@sequential_read aligned_sample 4
           (Deserializer.mk
              (Some (mkFILE aligned_sample 0 false false None 0 1 0 no_faults))
              8 0 0 0 0 "out.bin" (repeat x00 8))
           aligned_reader 0 4 [x01; x02; x03; x04]);
    [| lia | vm_compute; congruence | reflexivity].
  apply (@sequential_open aligned_sample "out.bin" no_faults 8 0
           (Deserializer.mk (Some (fopen aligned_sample no_faults)) 8 0 0 0 8
              "out.bin" (repeat x00 8)));
    first [reflexivity | lia | vm_compute; split; congruence].
Qed.

(** X19.  For a reader used front to back whose page begins at, and whose
    page size is, a multiple of the alignment, [read_aligned] skips to the
    next multiple of the alignment in the file, the position at which
    [write_aligned] puts a value, and returns the bytes of the file from
    there. *)
Theorem read_aligned_on_aligned_pages
  (content : list byte) (d : Deserializer.t) (q size alignment : Z)
  (fuel : nat)
  (Hrun : sequential content d q)
  (Ha : 0 < alignment) (Hfit : U64.fits alignment)
  (HdivP : (alignment | Deserializer._target_page_size d))
  (Hdivb : (alignment | Deserializer._file_offset_page_begin d))
  (Hsize : 0 <= size)
  (Hin : round_up q alignment + size <= len content)
  (Hfuel : size <= Z.of_nat fuel) :
  exists d',
    Deserializer.read_aligned fuel d size alignment
    = Ok (d', slice content (round_up q alignment) size)
    /\ Deserializer.get_offset d' = round_up q alignment + size.
Proof.
  apply read_aligned_sequential; assumption.
Qed.

Lemma read_aligned_on_aligned_pages_witness :
  exists d',
    Deserializer.read_aligned 1 aligned_reader 1 8
    = Ok (d', slice aligned_sample (round_up 4 8) 1)
    /\ Deserializer.get_offset d' = round_up 4 8 + 1.
Proof.
  apply (@read_aligned_on_aligned_pages aligned_sample aligned_reader 4 1 8 1
           aligned_reader_run).
  - lia.
  - vm_compute. split; congruence.
  - exists 1. reflexivity.
  - exists 0. reflexivity.
  - lia.
  - vm_compute. congruence.
  - lia.
Defined.

(** What a successful [write_aligned] leaves in the stream: the value at
    the next multiple of the alignment. *)
Lemma write_aligned_stores (_num_zeroes : Z) (fuel : nat)
  (s s' : Serializer.t) (fw : FILE) (data : list byte) (alignment : Z) :
  0 < _num_zeroes -> writer_synced s ->
  U64.fits (Serializer._offset s) -> U64.fits alignment ->
  Serializer._offset s + alignment < U64.modulus ->
  Serializer.write_aligned _num_zeroes fuel s data (len data) alignment
  = Ok s' ->
  Serializer._file s' = Some fw ->
  0 < alignment
  /\ stream_slice fw (round_up (Serializer._offset s) alignment) (len data)
     = data.
Proof.
  intros Hnz Hs Ho Ha Hfit H Hfw.
  unfold Serializer.write_aligned in H. apply bind_Ok in H.
  destruct H as (s1 & Hpad & Hw).
  assert (Hapos : 0 < alignment).
  { unfold Serializer.write_padding in Hpad.
    destruct (Z.eqb_spec alignment 0); [discriminate |].
    unfold U64.fits in *. lia. }
  split; [exact Hapos |].
  apply write_padding_synced in Hpad; try assumption.
  destruct Hpad as ((f1 & Hf1 & Hpos1) & Ho1).
  pose proof (@round_up_spec (Serializer._offset s) alignment Hapos)
    as (_ & Hr).
  assert (Hp : 0 <= pos f1) by (unfold U64.fits in *; lia).
  pose proof (@write_stores s1 s' f1 fw data Hf1 Hp Hw Hfw) as Hst.
  unfold stream_slice. rewrite <- Ho1, <- Hpos1.
  replace (Z.to_nat (len data)) with (List.length data)
    by (unfold len; lia).
  exact Hst.
Qed.

(** The reader [u16_reader] is reached front to back. *)
Lemma u16_reader_run : sequential (bytes u16_file) u16_reader 1.
Proof.
  change 1 with (0 + 1).
  apply (@sequential_read (bytes u16_file) 1
           (Deserializer.mk
              (Some (mkFILE (bytes u16_file) 0 false false None 0 1 0
                       no_faults))
              4 0 0 0 0 "out.bin" (repeat x00 4))
           u16_reader 0 1 [x07]);
    [| lia | vm_compute; congruence | reflexivity].
  apply (@sequential_open (bytes u16_file) "out.bin" no_faults 4 0
           (Deserializer.mk (Some (fopen (bytes u16_file) no_faults)) 4 0 0 0 4
              "out.bin" (repeat x00 4)));
    first [reflexivity | lia | vm_compute; split; congruence].
Qed.

(** X20.  Aligned round trip over aligned pages: a value written with
    [write_aligned] at the writer's offset is read back unchanged by
    [read_aligned] from a reader that was opened on the written file, has
    read it front to back up to that offset, and whose page begins at, and
    whose page size is, a multiple of the value's alignment. *)
Theorem aligned_round_trip {T : Type} `{Pod T}
  (v : T) (_num_zeroes : Z) (fuel_w fuel_r : nat)
  (s s' : Serializer.t) (fw : FILE) (d : Deserializer.t)
  (Hnz : 0 < _num_zeroes)
  (Hs : writer_synced s) (Ho : U64.fits (Serializer._offset s))
  (Ha : U64.fits alignof) (Hsz : 0 < sizeof)
  (Hfit : Serializer._offset s + alignof < U64.modulus)
  (Hwrite : Serializer.write_aligned_value _num_zeroes fuel_w s v = Ok s')
  (Hfw : Serializer._file s' = Some fw)
  (Hrun : sequential (bytes fw) d (Serializer._offset s))
  (HdivP : (alignof | Deserializer._target_page_size d))
  (Hdivb : (alignof | Deserializer._file_offset_page_begin d))
  (Hfuel : sizeof <= Z.of_nat fuel_r) :
  exists d', Deserializer.read_aligned_value fuel_r d = Ok (d', v).
Proof.
  unfold Serializer.write_aligned_value in Hwrite.
  rewrite <- (to_bytes_len v) in Hwrite.
  destruct (@write_aligned_stores _num_zeroes fuel_w s s' fw (to_bytes v)
              alignof Hnz Hs Ho Ha Hfit Hwrite Hfw) as (Hapos & Hst).
  rewrite (to_bytes_len v) in Hst.
  assert (Hin : round_up (Serializer._offset s) alignof + sizeof
                <= len (bytes fw)).
  { pose proof (@round_up_spec (Serializer._offset s) alignof Hapos)
      as (_ & Hr).
    assert (Hl' : len (stream_slice fw
                         (round_up (Serializer._offset s) alignof) sizeof)
                  = sizeof)
      by (rewrite Hst; apply to_bytes_len).
    unfold stream_slice in Hl'.
    rewrite len_firstn_min, len_skipn in Hl'
      by (unfold U64.fits in *; lia).
    lia. }
  destruct (@read_aligned_sequential (bytes fw) d (Serializer._offset s)
              sizeof alignof fuel_r Hrun Hapos Ha HdivP Hdivb)
    as (d' & Hread & _); try lia.
  exists d'. unfold Deserializer.read_aligned_value. rewrite Hread.
  cbn [bind]. unfold slice. unfold stream_slice in Hst.
  rewrite Hst, of_to_bytes. reflexivity.
Qed.

Lemma aligned_round_trip_witness :
  exists d',
    @Deserializer.read_aligned_value (byte * byte) pod_u16 2 u16_reader
    = Ok (d', (x12, x34)).
Proof.
  apply (@aligned_round_trip (byte * byte) pod_u16 (x12, x34) 16 2 2
           u16_writer (Serializer.mk (Some u16_file) 4 "out.bin") u16_file
           u16_reader).
  - lia.
  - eexists. split; reflexivity.
  - vm_compute. split; congruence.
  - vm_compute. split; congruence.
  - reflexivity.
  - vm_compute. congruence.
  - reflexivity.
  - reflexivity.
  - exact u16_reader_run.
  - exists 2. reflexivity.
  - exists 0. reflexivity.
  - simpl. lia.
Defined.

(** * The first read of a constructed reader *)

(** X21.  A [read] issued on a reader straight after construction, before
    any [set_offset], copies from outside the buffer whatever its size:
    the constructor leaves the cursor at the page size and the active page
    empty, so the bytes "left in the page" number [0 - page_size] modulo
    [2^64]. *)
Theorem read_after_make_undefined
  (fuel : nat) (filename : string) (opened : option FILE)
  (page_size size : Z) (d0 : Deserializer.t)
  (Hp : U64.fits page_size) (Hsize : U64.fits size)
  (Hmake : Deserializer.make filename opened page_size = Ok d0) :
  Deserializer.read (S fuel) d0 size = Undefined.
Proof.
  unfold Deserializer.make in Hmake.
  destruct opened as [f |]; [| discriminate].
  destruct (Z.eqb_spec page_size 0) as [E | E]; [discriminate |].
  inversion Hmake; subst d0; clear Hmake.
  unfold U64.fits in *.
  assert (Hlen : len (repeat x00 (Z.to_nat page_size)) = page_size)
    by (rewrite len_repeat; lia).
  unfold Deserializer.read. cbn [Deserializer.read_loop]. reader_fields.
  destruct (Z.gtb_spec (U64.add page_size size) 0) as [Hgt | Hle].
  - assert (Hlead : U64.sub 0 page_size = U64.modulus - page_size).
    { unfold U64.sub, U64.wrap.
      replace (0 - page_size) with (U64.modulus - page_size + -1 * U64.modulus)
        by ring.
      rewrite Z_mod_plus_full. apply Z.mod_small. lia. }
    rewrite Hlead. unfold memcpy. rewrite Hlen.
    replace (page_size + (U64.modulus - page_size) <=? page_size) with false
      by (symmetry; apply Z.leb_gt; lia).
    reflexivity.
  - cbn [bind]. reader_fields. unfold memcpy. rewrite Hlen.
    assert (Hwrap : page_size + size >= U64.modulus).
    { destruct (Z_lt_ge_dec (page_size + size) U64.modulus) as [Hlt | Hge];
        [| exact Hge].
      rewrite add_small in Hle by (unfold U64.fits; lia). lia. }
    replace (page_size + size <=? page_size) with false
      by (symmetry; apply Z.leb_gt; lia).
    reflexivity.
Qed.

Lemma read_after_make_undefined_witness :
  Deserializer.read 1 reader_made 3 = Undefined.
Proof.
  apply (@read_after_make_undefined 0 "in.bin"
           (Some (fopen abcdef no_faults)) 4 3 reader_made);
    first [reflexivity | vm_compute; split; congruence].
Defined.
